(** * Embeddable links fixer: clipboard polling and link rewriting

    A shallow embedding of [src/index.ts]: the [UrlReplacer] rewrite rules,
    [ClipboardMonitor.detectAndFixLinks] and one tick of
    [ClipboardMonitor.checkClipboard], with the properties of the rewrite
    loop and of the polling state machine.

    JavaScript strings are modelled as [string] (sequences of 8-bit
    characters); every pattern and replacement of the program is ASCII. *)

From Stdlib Require Import String Ascii List Bool Arith Lia Permutation.
Import ListNotations.
Open Scope string_scope.

(** ** String primitives *)

(** [strip_prefix p s] is [Some rest] when [s = p ++ rest]. *)
Fixpoint strip_prefix (p s : string) : option string :=
  match p with
  | EmptyString => Some s
  | String c p' =>
      match s with
      | EmptyString => None
      | String d s' => if Ascii.eqb c d then strip_prefix p' s' else None
      end
  end.

Fixpoint take (n : nat) (s : string) : string :=
  match n, s with
  | S n', String c s' => String c (take n' s')
  | _, _ => EmptyString
  end.

Fixpoint drop (n : nat) (s : string) : string :=
  match n, s with
  | S n', String _ s' => drop n' s'
  | _, _ => s
  end.

(** [rev_onto w acc] pushes the characters of [w] onto [acc], last
    character of [w] on top: the text before a cursor is kept reversed. *)
Fixpoint rev_onto (w acc : string) : string :=
  match w with
  | EmptyString => acc
  | String c w' => rev_onto w' (String c acc)
  end.

Fixpoint mem (c : ascii) (s : string) : bool :=
  match s with
  | EmptyString => false
  | String d s' => Ascii.eqb c d || mem c s'
  end.

(** ** Regular expressions

    The fragment of ECMAScript patterns the program uses: literals,
    sequence, alternation [a|b], the greedy optional [a?], capture groups
    and a negative lookbehind on a literal [(?<!w)].  Matching follows the
    ECMAScript backtracking semantics with continuations: a matcher takes
    the current state and a continuation, and alternatives are tried in
    priority order. *)
Module Regex.

Inductive t : Type :=
| Lit (w : string)
| Seq (r1 r2 : t)
| Alt (r1 r2 : t)
| Opt (r : t)
| Group (r : t)
| NotBehind (w : string).

(** A match state: the number of characters consumed since the start of
    the match, the text before the cursor (reversed) and the text after. *)
Definition Cont : Type := nat -> string -> string -> option nat.

Fixpoint run (r : t) (n : nat) (before after : string) (k : Cont)
  : option nat :=
  match r with
  | Lit w =>
      match strip_prefix w after with
      | Some rest => k (String.length w + n) (rev_onto w before) rest
      | None => None
      end
  | Seq r1 r2 => run r1 n before after (fun n' b' a' => run r2 n' b' a' k)
  | Alt r1 r2 =>
      match run r1 n before after k with
      | Some e => Some e
      | None => run r2 n before after k
      end
  | Opt r1 =>
      match run r1 n before after
              (fun n' b' a' => if Nat.eqb n' n then None else k n' b' a') with
      | Some e => Some e
      | None => k n before after
      end
  | Group r1 => run r1 n before after k
  | NotBehind w =>
      match strip_prefix (rev_onto w EmptyString) before with
      | Some _ => None
      | None => k n before after
      end
  end.

(** The length of the match starting at the cursor, if there is one. *)
Definition match_at (r : t) (before after : string) : option nat :=
  run r 0 before after (fun n _ _ => Some n).

(** The leftmost match at or after the cursor: the text skipped, the
    matched text and the text that follows. *)
Fixpoint search (r : t) (before after : string)
  : option (string * string * string) :=
  match match_at r before after with
  | Some n => Some (EmptyString, take n after, drop n after)
  | None =>
      match after with
      | EmptyString => None
      | String c rest =>
          match search r (String c before) rest with
          | Some (pre, m, post) => Some (String c pre, m, post)
          | None => None
          end
      end
  end.

End Regex.

(** ** String.prototype.match with a global pattern

    [text.match(re)] with the [g] flag collects every match, scanning left
    to right from the end of the previous match (one character further
    after an empty match), and is [null] when there is none.  [match_all]
    keeps, with every match, the text skipped before it, and returns the
    text after the last match. *)

Definition push_gap (c : ascii) (r : list (string * string) * string)
  : list (string * string) * string :=
  match r with
  | ((g, m) :: ps, last) => ((String c g, m) :: ps, last)
  | ([], last) => ([], String c last)
  end.

Definition cons_piece (p : string * string)
  (r : list (string * string) * string) : list (string * string) * string :=
  (p :: fst r, snd r).

Fixpoint match_all (fuel : nat) (re : Regex.t) (before after : string)
  : list (string * string) * string :=
  match fuel with
  | 0 => ([], after)
  | S fuel' =>
      match Regex.search re before after with
      | None => ([], after)
      | Some (pre, m, post) =>
          match m, post with
          | EmptyString, EmptyString => ([(pre, m)], post)
          | EmptyString, String c post' =>
              cons_piece (pre, m)
                (push_gap c
                   (match_all fuel' re (String c (rev_onto pre before)) post'))
          | _, _ =>
              cons_piece (pre, m)
                (match_all fuel' re (rev_onto m (rev_onto pre before)) post)
          end
      end
  end.

Definition String_match (text : string) (re : Regex.t)
  : option (list string) :=
  match fst (match_all (S (String.length text)) re EmptyString text) with
  | [] => None
  | ps => Some (map snd ps)
  end.

(** ** String.prototype.replace with a string pattern *)

(** The first occurrence of [needle]: the text before it and after it. *)
Fixpoint index_of (needle s : string) : option (string * string) :=
  match strip_prefix needle s with
  | Some rest => Some (EmptyString, rest)
  | None =>
      match s with
      | EmptyString => None
      | String c s' =>
          match index_of needle s' with
          | Some (a, b) => Some (String c a, b)
          | None => None
          end
      end
  end.

(** GetSubstitution for a string pattern (no captures): [$$], [$&],
    [$`] and [$'] are expanded, every other character is copied. *)
Fixpoint GetSubstitution (matched before after template : string) : string :=
  match template with
  | EmptyString => EmptyString
  | String c EmptyString => String c EmptyString
  | String c (String d t as t') =>
      if Ascii.eqb c "$" then
        if Ascii.eqb d "$" then
          String "$" (GetSubstitution matched before after t)
        else if Ascii.eqb d "&" then
          matched ++ GetSubstitution matched before after t
        else if Ascii.eqb d "`" then
          before ++ GetSubstitution matched before after t
        else if Ascii.eqb d "'" then
          after ++ GetSubstitution matched before after t
        else String c (GetSubstitution matched before after t')
      else String c (GetSubstitution matched before after t')
  end.

Definition String_replace (text needle template : string) : string :=
  match index_of needle text with
  | None => text
  | Some (before, after) =>
      before ++ GetSubstitution needle before after template ++ after
  end.

(** ** UrlReplacer *)

Record UrlReplacer : Type := {
  pattern : Regex.t;
  replacement : string
}.

(** [UrlReplacer.apply]: the [while] loop runs as long as the pattern
    matches; [None] when the fuel runs out before the loop exits. *)
Fixpoint apply_fuel (fuel : nat) (r : UrlReplacer) (result : string)
  : option string :=
  match fuel with
  | 0 => None
  | S fuel' =>
      match String_match result (pattern r) with
      | None => Some result
      | Some found =>
          apply_fuel fuel' r
            (String_replace result (nth 0 found EmptyString) (replacement r))
      end
  end.

(** The loop run with one more unit of fuel than the text has characters,
    which is enough for each rule of the program ([apply_fuel_enough]). *)
Definition apply (r : UrlReplacer) (text : string) : string :=
  match apply_fuel (S (String.length text)) r text with
  | Some result => result
  | None => text
  end.

(** ** ClipboardMonitor *)

Import Regex.

(** [/https?:\/\/(?<!fixup)(twitter|x)\.com/g] *)
Definition twitter_pattern : Regex.t :=
  Seq (Lit "http") (Seq (Opt (Lit "s")) (Seq (Lit "://")
    (Seq (NotBehind "fixup")
       (Seq (Group (Alt (Lit "twitter") (Lit "x"))) (Lit ".com"))))).

(** [/https?:\/\/(?<!dd)instagram\.com/g] *)
Definition instagram_pattern : Regex.t :=
  Seq (Lit "http") (Seq (Opt (Lit "s")) (Seq (Lit "://")
    (Seq (NotBehind "dd") (Lit "instagram.com")))).

(** [/https?:\/\/(?<!fixup)tiktok\.com/g] *)
Definition tiktok_pattern : Regex.t :=
  Seq (Lit "http") (Seq (Opt (Lit "s")) (Seq (Lit "://")
    (Seq (NotBehind "fixup") (Lit "tiktok.com")))).

Definition replacers : list UrlReplacer :=
  [ {| pattern := twitter_pattern; replacement := "https://fixupx.com" |};
    {| pattern := instagram_pattern; replacement := "https://ddinstagram.com" |};
    {| pattern := tiktok_pattern; replacement := "https://fixuptiktok.com" |} ].

Definition detectAndFixLinks (text : string) : string :=
  if String.eqb text EmptyString then text
  else fold_left (fun currentText replacer => apply replacer currentText)
         replacers text.

(** The same with explicit fuel for every rule. *)
Definition detectAndFixLinks_fuel (fuel : nat) (text : string)
  : option string :=
  if String.eqb text EmptyString then Some text
  else fold_left
         (fun currentText replacer =>
            match currentText with
            | Some t => apply_fuel fuel replacer t
            | None => None
            end)
         replacers (Some text).

Inductive Platform : Type := win32 | darwin | linux | unsupported.

(** What the operating system does in one tick: the output of the paste
    utility ([None] when spawning or reading it throws) and whether the
    copy utility runs to its end for a given text. *)
Record Env : Type := {
  platform : Platform;
  paste_output : option string;
  copy_completes : string -> bool
}.

Definition is_space (c : ascii) : bool :=
  let n := nat_of_ascii c in
  (Nat.leb 9 n && Nat.leb n 13) || Nat.eqb n 32 || Nat.eqb n 160.

Fixpoint trim_start (s : string) : string :=
  match s with
  | EmptyString => EmptyString
  | String c s' => if is_space c then trim_start s' else s
  end.

Fixpoint trim_end (s : string) : string :=
  match s with
  | EmptyString => EmptyString
  | String c s' =>
      match trim_end s' with
      | EmptyString => if is_space c then EmptyString else String c EmptyString
      | t => String c t
      end
  end.

Definition trim (s : string) : string := trim_end (trim_start s).

Definition readClipboard (env : Env) : string :=
  match platform env with
  | unsupported => EmptyString
  | _ =>
      match paste_output env with
      | Some output => trim output
      | None => EmptyString
      end
  end.

Definition writeClipboard (env : Env) (text : string) : bool :=
  match platform env with
  | unsupported => false
  | _ => copy_completes env text
  end.

Record Monitor : Type := {
  lastClipboardContent : string;
  isMonitoringEnabled : bool
}.

Definition initial : Monitor :=
  {| lastClipboardContent := EmptyString; isMonitoringEnabled := true |}.

Definition set_last (st : Monitor) (v : string) : Monitor :=
  {| lastClipboardContent := v; isMonitoringEnabled := isMonitoringEnabled st |}.

Definition toggleMonitoring (st : Monitor) : Monitor :=
  {| lastClipboardContent := lastClipboardContent st;
     isMonitoringEnabled := negb (isMonitoringEnabled st) |}.

(** What a tick does, in order: calls of the two clipboard capabilities
    and assignments to [lastClipboardContent]. *)
Inductive Effect : Type :=
| CallRead
| CallWrite (text : string) (ok : bool)
| SetLast (v : string).

Definition checkClipboard (env : Env) (st : Monitor) : Monitor * list Effect :=
  if negb (isMonitoringEnabled st) then (st, [])
  else
    let clipboardContent := readClipboard env in
    if Nat.eqb (String.length clipboardContent) 0 then (st, [CallRead])
    else if negb (String.eqb clipboardContent (lastClipboardContent st)) then
      let st1 := set_last st clipboardContent in
      let fixedContent := detectAndFixLinks clipboardContent in
      if String.eqb fixedContent EmptyString then
        (st1, [CallRead; SetLast clipboardContent])
      else if negb (String.eqb fixedContent clipboardContent) then
        let ok := writeClipboard env fixedContent in
        (set_last st1 fixedContent,
         [CallRead; SetLast clipboardContent; CallWrite fixedContent ok;
          SetLast fixedContent])
      else (st1, [CallRead; SetLast clipboardContent])
    else (st, [CallRead]).

(** A run of ticks, one environment per tick. *)
Fixpoint run_ticks (envs : list Env) (st : Monitor) : Monitor * list Effect :=
  match envs with
  | [] => (st, [])
  | env :: rest =>
      let '(st1, e1) := checkClipboard env st in
      let '(st2, e2) := run_ticks rest st1 in
      (st2, (e1 ++ e2)%list)
  end.

(** ** Literal alternatives of a pattern

    The words a pattern can consume, in priority order, lookbehinds left
    out; the assembly of a text from its pieces. *)

Fixpoint expansions (re : Regex.t) : list string :=
  match re with
  | Lit w => [w]
  | Seq r1 r2 =>
      flat_map (fun w1 => map (fun w2 => w1 ++ w2) (expansions r2))
        (expansions r1)
  | Alt r1 r2 => (expansions r1 ++ expansions r2)%list
  | Opt r1 => (expansions r1 ++ [EmptyString])%list
  | Group r1 => expansions r1
  | NotBehind _ => [EmptyString]
  end.

(** The first of [alts] that the text starts with. *)
Fixpoint first_prefix (alts : list string) (s : string) : option string :=
  match alts with
  | [] => None
  | a :: rest =>
      match strip_prefix a s with
      | Some _ => Some a
      | None => first_prefix rest s
      end
  end.

(** The leftmost position where the text starts with one of [alts]. *)
Fixpoint find_hit (alts : list string) (s : string)
  : option (string * string * string) :=
  match first_prefix alts s with
  | Some m => Some (EmptyString, m, drop (String.length m) s)
  | None =>
      match s with
      | EmptyString => None
      | String c rest =>
          match find_hit alts rest with
          | Some (pre, m, post) => Some (String c pre, m, post)
          | None => None
          end
      end
  end.

(** [splice [(g1, w1); ...; (gn, wn)] last = g1 ++ w1 ++ ... ++ gn ++ wn ++ last]. *)
Fixpoint splice (pieces : list (string * string)) (last : string) : string :=
  match pieces with
  | [] => last
  | (g, w) :: rest => g ++ w ++ splice rest last
  end.

(** Every match of [pieces] replaced by [r]. *)
Definition with_replacement (r : string) (pieces : list (string * string))
  : list (string * string) :=
  map (fun p => (fst p, r)) pieces.

(** A word that starts with [c0] and has no other [c0]. *)
Definition headed (c0 : ascii) (w : string) : bool :=
  match w with
  | EmptyString => false
  | String c t => Ascii.eqb c c0 && negb (mem c0 t)
  end.

(** Neither word is a prefix of the other. *)
Definition apart (a r : string) : bool :=
  match strip_prefix a r, strip_prefix r a with
  | None, None => true
  | _, _ => false
  end.

(** A replacement [r] that cannot give rise to a match of [alts]. *)
Definition inert (c0 : ascii) (alts : list string) (r : string) : bool :=
  forallb (headed c0) alts && headed c0 r && forallb (fun a => apart a r) alts.

(** No word of [alts] starts inside [x] when [x] is followed by [y]. *)
Definition Quiet (alts : list string) (x y : string) : Prop :=
  forall a b, x = a ++ b -> b <> "" -> first_prefix alts (b ++ y) = None.

(** No word of [alts] starts anywhere in [s]. *)
Definition Clean (alts : list string) (s : string) : Prop :=
  forall a b, s = a ++ b -> first_prefix alts b = None.

(** A rule is literal when its pattern matches exactly the first of its
    expansions the text starts with, wherever the cursor stands, and its
    replacement is inert for them and has no [$]. *)
Definition literal_rule (c0 : ascii) (rule : UrlReplacer) : Prop :=
  (forall before after,
      Regex.match_at (pattern rule) before after
      = option_map String.length
          (first_prefix (expansions (pattern rule)) after))
  /\ inert c0 (expansions (pattern rule)) (replacement rule) = true
  /\ mem "$" (replacement rule) = false.

(** The value [lastClipboardContent] holds after the assignments of
    [effects], starting from [v]. *)
Definition final_last (effects : list Effect) (v : string) : string :=
  fold_left (fun acc e => match e with SetLast w => w | _ => acc end)
    effects v.

(** Three environments on Linux: the paste utility prints a twitter URL
    and the copy utility runs; the same with a copy utility that cannot be
    run; the paste utility prints the fixed URL. *)
Definition working_env : Env :=
  {| platform := linux;
     paste_output := Some "https://x.com/foo";
     copy_completes := fun _ => true |}.

Definition failing_env : Env :=
  {| platform := linux;
     paste_output := Some "https://x.com/foo";
     copy_completes := fun _ => false |}.

Definition reread_env : Env :=
  {| platform := linux;
     paste_output := Some "https://fixupx.com/foo";
     copy_completes := fun _ => true |}.

(** A rule outside the program's list, whose replacement is its own
    match. *)
Definition stuck_rule : UrlReplacer :=
  {| pattern := Regex.Lit "a"; replacement := "a" |}.

(** The last character of a text. *)
Fixpoint last_char (s : string) : option ascii :=
  match s with
  | EmptyString => None
  | String c s' =>
      match last_char s' with
      | Some d => Some d
      | None => Some c
      end
  end.

(** Two words of [alts] are the same word or apart. *)
Definition separate (alts : list string) : bool :=
  forallb (fun a => forallb (fun b => String.eqb a b || apart a b) alts) alts.

(** Every word of [alts1] is apart from every word of [alts2]. *)
Definition disjoint (alts1 alts2 : list string) : bool :=
  forallb (fun a => forallb (fun b => apart a b) alts2) alts1.

(** ** The application around the monitor

    The fields of [ClipboardMonitor] besides the two of [Monitor], with
    what the runtime holds for them: the interval timers that are active,
    the next timer handle [setInterval] returns and the exit status of the
    process once [process.exit] was called.  The promise of [Tray.create]
    resolves, rejects or never settles; on a tray that was created the
    calls of [item] and [setIcon] return, and the call of [destroy]
    returns or throws. *)
Module App.

Inductive Icon : Type := icon_enabled | icon_disabled.

Inductive Action : Type := do_toggle | do_exit.

(** [items] are the items created by the calls of [tray.item], in the
    order of the calls; the source never installs them with [setMenu]. *)
Record Tray : Type := {
  items : list (string * Action);
  icon : option Icon;
  destroyed : bool
}.

(** How the promise around [Tray.create] ends. *)
Inductive Settles : Type := resolves | rejects | never_settles.

(** The host: its platform, how [Tray.create] ends and which icon files
    [readFileSync] can read. *)
Record Host : Type := {
  host_platform : Platform;
  tray_create : Settles;
  icon_readable : Icon -> bool
}.

Record t : Type := {
  monitor : Monitor;
  tray : option Tray;
  intervalId : option nat;
  timers : list nat;
  next_timer : nat;
  exit_code : option nat
}.

Definition start : t :=
  {| monitor := initial; tray := None; intervalId := None;
     timers := []; next_timer := 0; exit_code := None |}.

Definition with_monitor (a : t) (m : Monitor) : t :=
  {| monitor := m; tray := tray a; intervalId := intervalId a;
     timers := timers a; next_timer := next_timer a;
     exit_code := exit_code a |}.

Definition with_tray (a : t) (tr : option Tray) : t :=
  {| monitor := monitor a; tray := tr; intervalId := intervalId a;
     timers := timers a; next_timer := next_timer a;
     exit_code := exit_code a |}.

Definition icon_of (enabled : bool) : Icon :=
  if enabled then icon_enabled else icon_disabled.

Definition updateTray (host : Host) (a : t) : t :=
  match tray a with
  | None => a
  | Some tr =>
      let i := icon_of (isMonitoringEnabled (monitor a)) in
      if icon_readable host i then
        with_tray a
          (Some {| items := items tr; icon := Some i;
                   destroyed := destroyed tr |})
      else a
  end.

Definition toggleMonitoring (host : Host) (a : t) : t :=
  updateTray host (with_monitor a (toggleMonitoring (monitor a))).

Definition startMonitoring (a : t) : t :=
  {| monitor := monitor a; tray := tray a;
     intervalId := Some (next_timer a);
     timers := next_timer a :: timers a;
     next_timer := S (next_timer a);
     exit_code := exit_code a |}.

Definition stopMonitoring (a : t) : t :=
  match intervalId a with
  | Some id =>
      {| monitor := monitor a; tray := tray a;
         intervalId := None;
         timers := remove Nat.eq_dec id (timers a);
         next_timer := next_timer a;
         exit_code := exit_code a |}
  | None => a
  end.

(** How a call of [exit] ends: [process.exit(0)] was reached, or the
    unguarded call of [tray.destroy] threw before it. *)
Inductive Ending : Type :=
| exited (a : t)
| threw (a : t).

Definition exit (destroy_returns : bool) (a : t) : Ending :=
  let a1 := stopMonitoring a in
  match tray a1 with
  | Some tr =>
      if destroy_returns then
        exited
          {| monitor := monitor a1;
             tray := Some {| items := items tr; icon := icon tr;
                             destroyed := true |};
             intervalId := intervalId a1; timers := timers a1;
             next_timer := next_timer a1; exit_code := Some 0 |}
      else threw a1
  | None =>
      exited
        {| monitor := monitor a1; tray := tray a1;
           intervalId := intervalId a1; timers := timers a1;
           next_timer := next_timer a1; exit_code := Some 0 |}
  end.



(** The timer handles in use are below the next handle. *)
Definition fresh (a : t) : Prop :=
  Forall (fun id => id < next_timer a) (timers a).

End App.

(** ** String.prototype.replace with a global pattern

    For a pattern without capture groups: every match of [match_all] is
    replaced by the expansion of the template at that match. *)
Fixpoint replace_pieces (template seen : string)
  (pieces : list (string * string)) (last : string) : string :=
  match pieces with
  | [] => last
  | (g, m) :: rest =>
      g ++ GetSubstitution m (seen ++ g) (splice rest last) template
        ++ replace_pieces template (seen ++ g ++ m) rest last
  end.

Definition String_replace_all (text : string) (re : Regex.t)
  (template : string) : string :=
  replace_pieces template EmptyString
    (fst (match_all (S (String.length text)) re EmptyString text))
    (snd (match_all (S (String.length text)) re EmptyString text)).

(** What [writeClipboard] spawns: the arguments of the process and the
    text streamed to its standard input, if any.  On Windows the text is
    put between single quotes in the PowerShell command, with
    [text.replace(/'/g, "''")]. *)
Definition copy_command (p : Platform) (text : string)
  : option (list string * option string) :=
  match p with
  | win32 =>
      Some (["powershell.exe"; "-command";
             "Set-Clipboard -Value '"
               ++ String_replace_all text (Regex.Lit "'") "''" ++ "'"],
            None)
  | darwin => Some (["pbcopy"], Some text)
  | linux => Some (["xclip"; "-selection"; "clipboard"], Some text)
  | unsupported => None
  end.

(** Every single quote written twice. *)
Fixpoint double_quotes (s : string) : string :=
  match s with
  | EmptyString => EmptyString
  | String c s' =>
      if Ascii.eqb c "'" then String "'" (String "'" (double_quotes s'))
      else String c (double_quotes s')
  end.

(** * Properties *)

#[local] Arguments Ascii.eqb : simpl never.

(** ** Strings *)

Lemma str_app_nil_r (s : string) : s ++ "" = s.
Proof. induction s; cbn; congruence. Qed.

Lemma str_app_assoc (a b c : string) : (a ++ b) ++ c = a ++ b ++ c.
Proof. induction a; cbn; congruence. Qed.

Lemma str_length_app (a b : string) :
  String.length (a ++ b) = String.length a + String.length b.
Proof. induction a; cbn; congruence. Qed.

Lemma take_drop (n : nat) (s : string) : take n s ++ drop n s = s.
Proof.
  revert s; induction n as [|n IH]; intros [|c s]; cbn; try reflexivity.
  now rewrite IH.
Qed.

Lemma drop_app (m x : string) : drop (String.length m) (m ++ x) = x.
Proof. induction m; cbn; auto. Qed.

Lemma strip_prefix_app (p r : string) : strip_prefix p (p ++ r) = Some r.
Proof.
  induction p as [|c p IH]; cbn; [reflexivity|].
  now rewrite Ascii.eqb_refl.
Qed.

Lemma strip_prefix_Some (p s r : string) :
  strip_prefix p s = Some r -> s = p ++ r.
Proof.
  revert s; induction p as [|c p IH]; intros s; cbn.
  - congruence.
  - destruct s as [|d s]; [discriminate|].
    destruct (Ascii.eqb_spec c d); [subst d|discriminate].
    intros H; apply IH in H; now subst.
Qed.

Lemma strip_prefix_None (p s : string) :
  strip_prefix p s = None -> forall r, s <> p ++ r.
Proof.
  intros H r ->. rewrite strip_prefix_app in H. discriminate.
Qed.

(** Two ways of cutting the same text share the shorter left part. *)
Lemma str_app_split (a b c d : string) :
  a ++ b = c ++ d ->
  (exists e, c = a ++ e /\ b = e ++ d) \/ (exists e, a = c ++ e /\ d = e ++ b).
Proof.
  revert c; induction a as [|x a IH]; intros c H; cbn in *.
  - left; exists c; auto.
  - destruct c as [|y c]; cbn in *.
    + right; exists (String x a); auto.
    + injection H as -> H. destruct (IH _ H) as [[e [-> ->]]|[e [-> ->]]].
      * left; exists e; auto.
      * right; exists e; auto.
Qed.

Lemma mem_app (c : ascii) (a b : string) :
  mem c (a ++ b) = mem c a || mem c b.
Proof.
  induction a as [|x a IH]; cbn; [reflexivity|].
  now rewrite IH, orb_assoc.
Qed.

Lemma eqb_empty (s : string) :
  String.eqb s "" = Nat.eqb (String.length s) 0.
Proof. destruct s; reflexivity. Qed.

Lemma take_app (m x : string) : take (String.length m) (m ++ x) = m.
Proof. induction m; cbn; [now destruct x | congruence]. Qed.

(** ** First prefix and leftmost hit *)

Lemma first_prefix_Some (alts : list string) (s m : string) :
  first_prefix alts s = Some m -> In m alts /\ exists rest, s = m ++ rest.
Proof.
  induction alts as [|a alts IH]; cbn; [discriminate|].
  destruct (strip_prefix a s) as [rest|] eqn:E.
  - intros [= <-]. split; [now left|]. exists rest. now apply strip_prefix_Some.
  - intros H. destruct (IH H) as [Hin Hrest]. split; [now right | exact Hrest].
Qed.

Lemma first_prefix_In (alts : list string) (m x : string) :
  In m alts -> first_prefix alts (m ++ x) <> None.
Proof.
  induction alts as [|a alts IH]; cbn; [tauto|].
  intros [->|Hin].
  - now rewrite strip_prefix_app.
  - destruct (strip_prefix a (m ++ x)); [discriminate | auto].
Qed.

Lemma headed_inv (c0 : ascii) (w : string) :
  headed c0 w = true -> exists t, w = String c0 t /\ mem c0 t = false.
Proof.
  destruct w as [|c t]; cbn; [discriminate|].
  intros H. apply andb_true_iff in H as [Hc Ht].
  apply Ascii.eqb_eq in Hc. subst c. exists t. split; [reflexivity|].
  now apply negb_true_iff.
Qed.

Lemma Quiet_nil (alts : list string) (y : string) : Quiet alts "" y.
Proof.
  intros a b H Hb. destruct a; cbn in H; [congruence | discriminate].
Qed.

Lemma Quiet_cons (alts : list string) (c : ascii) (x y : string) :
  Quiet alts (String c x) y <->
  first_prefix alts (String c x ++ y) = None /\ Quiet alts x y.
Proof.
  split.
  - intros H. split.
    + apply (H "" (String c x)); [reflexivity | discriminate].
    + intros a b -> Hb. now apply (H (String c a) b).
  - intros [H1 H2] a b Hab Hb. destruct a as [|d a]; cbn in Hab.
    + now subst b.
    + injection Hab as <- ->. now apply (H2 a b).
Qed.

Lemma Quiet_app (alts : list string) (x y z : string) :
  Quiet alts x (y ++ z) -> Quiet alts y z -> Quiet alts (x ++ y) z.
Proof.
  induction x as [|c x IH]; cbn; intros Hx Hy; [exact Hy|].
  apply Quiet_cons in Hx as [H1 H2]. apply Quiet_cons. split.
  - cbn. now rewrite str_app_assoc.
  - auto.
Qed.

Lemma Clean_app (alts : list string) (x y : string) :
  Quiet alts x y -> Clean alts y -> Clean alts (x ++ y).
Proof.
  induction x as [|c x IH]; cbn; intros Hx Hy; [exact Hy|].
  apply Quiet_cons in Hx as [H1 H2].
  intros a b Hab. destruct a as [|d a]; cbn in Hab.
  - now subst b.
  - injection Hab as <- Hab. now apply (IH H2 Hy a b).
Qed.

Lemma Clean_split (alts : list string) (x y : string) :
  Clean alts (x ++ y) -> Quiet alts x y /\ Clean alts y.
Proof.
  intros H. split.
  - intros a b -> _. apply (H a). now rewrite str_app_assoc.
  - intros a b ->. apply (H (x ++ a)). now rewrite str_app_assoc.
Qed.

Lemma first_prefix_drop (alts : list string) (s m : string) :
  first_prefix alts s = Some m ->
  s = m ++ drop (String.length m) s /\ In m alts.
Proof.
  intros H. destruct (first_prefix_Some _ _ _ H) as [Hin [rest ->]].
  now rewrite drop_app.
Qed.

Lemma first_prefix_take (alts : list string) (s m : string) :
  first_prefix alts s = Some m -> take (String.length m) s = m.
Proof.
  intros H. destruct (first_prefix_Some _ _ _ H) as [_ [rest ->]].
  apply take_app.
Qed.

Lemma find_hit_Some (alts : list string) (s pre m post : string) :
  find_hit alts s = Some (pre, m, post) ->
  s = pre ++ m ++ post /\ Quiet alts pre (m ++ post) /\ In m alts.
Proof.
  revert pre; induction s as [|c s IH]; intros pre; cbn.
  - destruct (first_prefix alts "") as [w|] eqn:E; [|discriminate].
    intros [= <- <- <-]. destruct (first_prefix_drop _ _ _ E) as [Hs Hin].
    repeat split; [exact Hs | apply Quiet_nil | exact Hin].
  - destruct (first_prefix alts (String c s)) as [w|] eqn:E.
    + intros [= <- <- <-]. destruct (first_prefix_drop _ _ _ E) as [Hs Hin].
      repeat split; [exact Hs | apply Quiet_nil | exact Hin].
    + destruct (find_hit alts s) as [[[p w] q]|] eqn:F; [|discriminate].
      intros [= <- <- <-]. destruct (IH _ eq_refl) as [Hs [Hq Hin]].
      split; [cbn; congruence|]. split; [|exact Hin].
      apply Quiet_cons. split; [cbn; congruence | exact Hq].
Qed.

Lemma find_hit_Clean (alts : list string) (s : string) :
  find_hit alts s = None -> Clean alts s.
Proof.
  induction s as [|c s IH]; cbn.
  - destruct (first_prefix alts "") eqn:E; [discriminate|].
    intros _ a b H. destruct a; [cbn in H; now subst b | discriminate].
  - destruct (first_prefix alts (String c s)) eqn:E; [discriminate|].
    destruct (find_hit alts s) as [[[p w] q]|]; [discriminate|].
    intros _ a b H. destruct a as [|d a]; cbn in H.
    + now subst b.
    + injection H as <- ->. now apply (IH eq_refl a b).
Qed.

Lemma Clean_find_hit (alts : list string) (s : string) :
  Clean alts s -> find_hit alts s = None.
Proof.
  induction s as [|c s IH]; cbn; intros H.
  - now rewrite (H "" "" eq_refl).
  - rewrite (H "" _ eq_refl). rewrite IH; [reflexivity|].
    intros a b ->. now apply (H (String c a)).
Qed.

Lemma find_hit_skip (alts : list string) (x y : string) :
  Quiet alts x y ->
  find_hit alts (x ++ y) =
  match find_hit alts y with
  | Some (pre, m, post) => Some (x ++ pre, m, post)
  | None => None
  end.
Proof.
  induction x as [|c x IH]; cbn; intros H.
  - now destruct (find_hit alts y) as [[[p w] q]|].
  - apply Quiet_cons in H as [H1 H2]. cbn in H1. rewrite H1, (IH H2).
    now destruct (find_hit alts y) as [[[p w] q]|].
Qed.

(** ** Inserting an inert replacement *)

Section Inert.
Variable c0 : ascii.
Variable alts : list string.
Variable r : string.
Hypothesis Hinert : inert c0 alts r = true.

Lemma inert_alts (m : string) : In m alts -> headed c0 m = true.
Proof.
  unfold inert in Hinert. apply andb_true_iff in Hinert as [H _].
  apply andb_true_iff in H as [H _].
  rewrite forallb_forall in H. apply H.
Qed.

Lemma inert_headed : headed c0 r = true.
Proof.
  unfold inert in Hinert. apply andb_true_iff in Hinert as [H _].
  now apply andb_true_iff in H as [_ H].
Qed.

Lemma inert_apart (m : string) : In m alts -> apart m r = true.
Proof.
  unfold inert in Hinert. apply andb_true_iff in Hinert as [_ H].
  rewrite forallb_forall in H. apply H.
Qed.

(** A hit starts with [c0]. *)
Lemma hit_head (c : ascii) (s m : string) :
  first_prefix alts (String c s) = Some m -> c = c0.
Proof.
  intros H. destruct (first_prefix_Some _ _ _ H) as [Hin [rest Hr]].
  destruct (headed_inv _ _ (inert_alts _ Hin)) as [t [-> _]].
  cbn in Hr. congruence.
Qed.

(** No hit starts at the replacement, whatever follows it. *)
Lemma inert_fresh (x : string) : first_prefix alts (r ++ x) = None.
Proof.
  destruct (first_prefix alts (r ++ x)) as [m|] eqn:E; [|reflexivity].
  destruct (first_prefix_Some _ _ _ E) as [Hin [rest Hr]].
  pose proof (inert_apart _ Hin) as Ha. unfold apart in Ha.
  destruct (str_app_split _ _ _ _ Hr) as [[e [-> _]]|[e [-> _]]].
  - rewrite (strip_prefix_app r e) in Ha.
    destruct (strip_prefix (r ++ e) r); discriminate.
  - rewrite (strip_prefix_app m e) in Ha. discriminate.
Qed.

Lemma inert_inside (post : string) : Quiet alts r post.
Proof.
  destruct (headed_inv _ _ inert_headed) as [t [Hr Ht]].
  intros a b Hab Hb. destruct a as [|c a]; cbn in Hab.
  - subst b. apply inert_fresh.
  - rewrite Hr in Hab. injection Hab as <- ->.
    destruct b as [|d b]; [congruence|].
    destruct (first_prefix alts (String d b ++ post)) as [m|] eqn:E;
      [|reflexivity].
    cbn in E. apply hit_head in E. subst d.
    rewrite mem_app in Ht. cbn in Ht. rewrite Ascii.eqb_refl in Ht.
    cbn in Ht. rewrite orb_true_r in Ht. discriminate.
Qed.

(** Replacing what follows a quiet stretch by the replacement and any
    text keeps the stretch, and the replacement, quiet. *)
Lemma insert_quiet (pre orig post : string) :
  Quiet alts pre orig -> Quiet alts (pre ++ r) post.
Proof.
  induction pre as [|c pre IH]; intros Hq.
  - apply inert_inside.
  - apply Quiet_cons in Hq as [H1 H2]. cbn. apply Quiet_cons.
    split; [|auto].
    destruct (first_prefix alts (String c (pre ++ r) ++ post)) as [m|] eqn:E;
      [exfalso|reflexivity].
    destruct (first_prefix_Some _ _ _ E) as [Hin [rest Hm]].
    destruct (headed_inv _ _ (inert_alts _ Hin)) as [t [-> Ht]].
    destruct (headed_inv _ _ inert_headed) as [tr [Hr _]].
    cbn in Hm. injection Hm as -> Hm. rewrite str_app_assoc in Hm.
    symmetry in Hm.
    destruct (str_app_split _ _ _ _ Hm) as [[e [Hp He]]|[e [Ht' He]]].
    + apply (first_prefix_In alts (String c0 t) (e ++ orig) Hin).
      rewrite <- H1, Hp. cbn. now rewrite str_app_assoc.
    + destruct e as [|d e].
      * rewrite str_app_nil_r in Ht'. subst t.
        apply (first_prefix_In alts (String c0 pre) orig Hin). exact H1.
      * rewrite Hr in He. cbn in He. injection He as -> _.
        rewrite Ht', mem_app in Ht. cbn in Ht.
        rewrite Ascii.eqb_refl, orb_true_r in Ht. discriminate.
Qed.

(** One replacement leaves a clean text clean. *)
Lemma insert_clean (pre m post : string) :
  Clean alts (pre ++ m ++ post) -> Clean alts (pre ++ r ++ post).
Proof.
  intros H. apply Clean_split in H as [Hq H]. apply Clean_split in H as [_ H].
  rewrite <- str_app_assoc. apply Clean_app; [|exact H].
  now apply insert_quiet with (orig := m ++ post).
Qed.

End Inert.

(** ** The matching primitives, for every pattern *)

Lemma search_split (re : Regex.t) (before s pre m post : string) :
  Regex.search re before s = Some (pre, m, post) -> s = pre ++ m ++ post.
Proof.
  revert before pre; induction s as [|c s IH]; intros before pre; cbn.
  - destruct (Regex.match_at re before "") as [n|]; [|discriminate].
    intros [= <- <- <-]. now destruct n.
  - destruct (Regex.match_at re before (String c s)) as [n|].
    + intros [= <- <- <-]. cbn [append]. symmetry. apply take_drop.
    + destruct (Regex.search re (String c before) s) as [[[p w] q]|] eqn:E;
        [|discriminate].
      intros [= <- <- <-]. cbn. f_equal. eauto.
Qed.

Lemma splice_push_gap (c : ascii) (r : list (string * string) * string) :
  splice (fst (push_gap c r)) (snd (push_gap c r))
  = String c (splice (fst r) (snd r)).
Proof. destruct r as [[|[g m] ps] last]; reflexivity. Qed.

(** The pieces of [match_all] are a cutting of the text. *)
Lemma match_all_splice (fuel : nat) (re : Regex.t) (before s : string) :
  splice (fst (match_all fuel re before s)) (snd (match_all fuel re before s))
  = s.
Proof.
  revert before s; induction fuel as [|fuel IH]; intros before s; cbn;
    [reflexivity|].
  destruct (Regex.search re before s) as [[[pre m] post]|] eqn:E;
    [|reflexivity].
  apply search_split in E. subst s.
  destruct m as [|c m].
  - destruct post as [|c post]; [reflexivity|].
    cbn [cons_piece fst snd splice]. now rewrite splice_push_gap, IH.
  - cbn [cons_piece fst snd splice]. now rewrite IH.
Qed.

(** [match_all] needs no more fuel than one unit per character and one
    more: beyond that its result does not depend on the fuel. *)
Lemma match_all_stable (re : Regex.t) (fuel fuel' : nat) (before s : string) :
  String.length s < fuel -> String.length s < fuel' ->
  match_all fuel re before s = match_all fuel' re before s.
Proof.
  revert fuel' before s; induction fuel as [|fuel IH];
    intros fuel' before s Hf Hf'; [lia|].
  destruct fuel' as [|fuel']; [lia|]. cbn [match_all].
  destruct (Regex.search re before s) as [[[pre m] post]|] eqn:E;
    [|reflexivity].
  apply search_split in E. subst s.
  rewrite !str_length_app in Hf, Hf'.
  destruct m as [|d m].
  - destruct post as [|c post]; [reflexivity|].
    cbn [String.length] in Hf, Hf'.
    rewrite (IH fuel'); [reflexivity | lia | lia].
  - cbn [String.length] in Hf, Hf'.
    rewrite (IH fuel'); [reflexivity | lia | lia].
Qed.

(** ** The rewrite loop, for every rule *)

Lemma apply_fuel_mono (r : UrlReplacer) (n n' : nat) (text out : string) :
  apply_fuel n r text = Some out -> n <= n' -> apply_fuel n' r text = Some out.
Proof.
  revert n' text; induction n as [|n IH]; intros n' text; cbn; [discriminate|].
  intros H Hle. destruct n' as [|n']; [lia|]. cbn.
  destruct (String_match text (pattern r)); [|exact H].
  apply IH; [exact H | lia].
Qed.

(** The loop exits only on a text the pattern does not match. *)
Lemma apply_fuel_out (r : UrlReplacer) (n : nat) (text out : string) :
  apply_fuel n r text = Some out -> String_match out (pattern r) = None.
Proof.
  revert text; induction n as [|n IH]; intros text; cbn; [discriminate|].
  destruct (String_match text (pattern r)) eqn:E; [apply IH|].
  now intros [= <-].
Qed.

Lemma apply_fuel_fixed (r : UrlReplacer) (n : nat) (text : string) :
  String_match text (pattern r) = None -> apply_fuel (S n) r text = Some text.
Proof. intros H. cbn. now rewrite H. Qed.

Lemma GetSubstitution_plain (matched before after template : string) :
  mem "$" template = false ->
  GetSubstitution matched before after template = template.
Proof.
  induction template as [|c t IH]; [reflexivity|].
  intros H. cbn in H. apply orb_false_iff in H as [Hc Ht].
  rewrite Ascii.eqb_sym in Hc.
  destruct t as [|d t]; [reflexivity|].
  cbn [GetSubstitution]. rewrite Hc. f_equal. now apply IH.
Qed.

(** ** Rules whose matches are literal words *)

Section Rule.
Variable c0 : ascii.
Variable rule : UrlReplacer.
Hypothesis Hrule : literal_rule c0 rule.

Let alts := expansions (pattern rule).
Let repl := replacement rule.

Lemma rule_inert : inert c0 alts repl = true.
Proof. exact (proj1 (proj2 Hrule)). Qed.

Lemma hit_nonempty (m : string) :
  In m alts -> exists c t, m = String c t.
Proof.
  intros Hin. destruct (headed_inv _ _ (inert_alts _ _ _ rule_inert _ Hin))
    as [t [-> _]]. eauto.
Qed.

Lemma search_find_hit (before s : string) :
  Regex.search (pattern rule) before s = find_hit alts s.
Proof.
  destruct Hrule as [Hm _].
  revert before; induction s as [|c s IH]; intros before; cbn;
    rewrite Hm; fold alts.
  - destruct (first_prefix alts "") as [m|] eqn:E; cbn; [|reflexivity].
    now rewrite (first_prefix_take _ _ _ E).
  - destruct (first_prefix alts (String c s)) as [m|] eqn:E; cbn.
    + now rewrite (first_prefix_take _ _ _ E).
    + now rewrite IH.
Qed.

Lemma match_all_S (fuel : nat) (before s : string) :
  match_all (S fuel) (pattern rule) before s =
  match find_hit alts s with
  | None => ([], s)
  | Some (pre, m, post) =>
      cons_piece (pre, m)
        (match_all fuel (pattern rule) (rev_onto m (rev_onto pre before)) post)
  end.
Proof.
  cbn [match_all]. rewrite search_find_hit.
  destruct (find_hit alts s) as [[[pre m] post]|] eqn:F; [|reflexivity].
  destruct (find_hit_Some _ _ _ _ _ F) as [_ [_ Hin]].
  destruct (hit_nonempty _ Hin) as [c [t ->]]. reflexivity.
Qed.

Lemma String_match_None (text : string) :
  find_hit alts text = None -> String_match text (pattern rule) = None.
Proof.
  intros H. unfold String_match. now rewrite match_all_S, H.
Qed.

Lemma String_match_Some (text pre m post : string) :
  find_hit alts text = Some (pre, m, post) ->
  exists found,
    String_match text (pattern rule) = Some found
    /\ nth 0 found EmptyString = m.
Proof.
  intros H. unfold String_match. rewrite match_all_S, H. cbn.
  eexists. split; reflexivity.
Qed.

Lemma String_match_Clean (text : string) :
  String_match text (pattern rule) = None <-> Clean alts text.
Proof.
  split.
  - intros H. apply find_hit_Clean.
    destruct (find_hit alts text) as [[[pre m] post]|] eqn:F; [|reflexivity].
    destruct (String_match_Some _ _ _ _ F) as [found [Hf _]]. congruence.
  - intros H. apply String_match_None. now apply Clean_find_hit.
Qed.

(** The word found is replaced where it was found: it does not occur
    earlier in the text. *)
Lemma index_of_hit (pre m post : string) :
  Quiet alts pre (m ++ post) -> In m alts ->
  index_of m (pre ++ m ++ post) = Some (pre, post).
Proof.
  intros Hq Hin. induction pre as [|c pre IH]; cbn [append].
  - destruct (hit_nonempty _ Hin) as [d [t ->]].
    pose proof (strip_prefix_app (String d t) post) as E.
    cbn [append] in E. cbn [index_of append]. now rewrite E.
  - apply Quiet_cons in Hq as [H1 H2]. cbn [index_of].
    destruct (strip_prefix m (String c (pre ++ m ++ post))) as [rest|] eqn:E.
    + apply strip_prefix_Some in E. exfalso.
      apply (first_prefix_In alts m rest Hin). rewrite <- E. exact H1.
    + now rewrite (IH H2).
Qed.

Lemma String_replace_hit (pre m post : string) :
  Quiet alts pre (m ++ post) -> In m alts ->
  String_replace (pre ++ m ++ post) m repl = pre ++ repl ++ post.
Proof.
  intros Hq Hin. unfold String_replace. rewrite index_of_hit by assumption.
  rewrite GetSubstitution_plain; [reflexivity|]. exact (proj2 (proj2 Hrule)).
Qed.

(** One turn of the loop. *)
Lemma apply_fuel_S (n : nat) (text : string) :
  apply_fuel (S n) rule text =
  match find_hit alts text with
  | None => Some text
  | Some (pre, m, post) => apply_fuel n rule (pre ++ repl ++ post)
  end.
Proof.
  cbn [apply_fuel].
  destruct (find_hit alts text) as [[[pre m] post]|] eqn:F.
  - destruct (String_match_Some _ _ _ _ F) as [found [-> ->]].
    destruct (find_hit_Some _ _ _ _ _ F) as [-> [Hq Hin]].
    now rewrite String_replace_hit.
  - now rewrite String_match_None.
Qed.

(** The loop replaces the matches of [match_all], one per turn. *)
Lemma apply_fuel_pieces (f : nat) (d s before : string) :
  Quiet alts d s -> String.length s < f ->
  apply_fuel (S (List.length (fst (match_all f (pattern rule) before s))))
    rule (d ++ s)
  = Some (d ++ splice
                 (with_replacement repl
                    (fst (match_all f (pattern rule) before s)))
                 (snd (match_all f (pattern rule) before s)))
  /\ List.length (fst (match_all f (pattern rule) before s))
     <= String.length s.
Proof.
  revert d s before; induction f as [|f IH]; intros d s before Hq Hlen;
    [lia|].
  rewrite match_all_S, apply_fuel_S, (find_hit_skip _ _ _ Hq).
  destruct (find_hit alts s) as [[[pre m] post]|] eqn:F.
  - destruct (find_hit_Some _ _ _ _ _ F) as [Hs [Hq' Hin]].
    assert (Hm : 1 <= String.length m).
    { destruct (hit_nonempty _ Hin) as [c [t ->]]. cbn. lia. }
    assert (Hpost : String.length post < f).
    { rewrite Hs, !str_length_app in Hlen. lia. }
    assert (Hd : Quiet alts ((d ++ pre) ++ repl) post).
    { apply insert_quiet with (c0 := c0) (orig := m ++ post);
        [exact rule_inert|].
      apply Quiet_app; [now rewrite <- Hs | exact Hq']. }
    destruct (IH _ _ (rev_onto m (rev_onto pre before)) Hd Hpost)
      as [Hrun Hn].
    cbn [cons_piece fst snd List.length with_replacement map splice].
    split.
    + rewrite <- !str_app_assoc. rewrite Hrun.
      unfold with_replacement. now rewrite !str_app_assoc.
    + rewrite Hs, !str_length_app. lia.
  - cbn. split; [reflexivity | lia].
Qed.

(** The loop exits within one turn more than the text has characters. *)
Lemma apply_fuel_apply (fuel : nat) (text : string) :
  String.length text < fuel ->
  apply_fuel fuel rule text = Some (apply rule text).
Proof.
  intros Hlen.
  destruct (apply_fuel_pieces (S (String.length text)) "" text ""
              (Quiet_nil _ _) (Nat.lt_succ_diag_r _)) as [Hrun Hn].
  cbn [append] in Hrun.
  unfold apply.
  rewrite (apply_fuel_mono _ _ (S (String.length text)) _ _ Hrun) by lia.
  apply (apply_fuel_mono _ _ _ _ _ Hrun). lia.
Qed.

Lemma apply_splice (text : string) :
  apply rule text
  = splice
      (with_replacement repl
         (fst (match_all (S (String.length text)) (pattern rule) "" text)))
      (snd (match_all (S (String.length text)) (pattern rule) "" text)).
Proof.
  destruct (apply_fuel_pieces (S (String.length text)) "" text ""
              (Quiet_nil _ _) (Nat.lt_succ_diag_r _)) as [Hrun Hn].
  cbn [append] in Hrun.
  unfold apply.
  rewrite (apply_fuel_mono _ _ (S (String.length text)) _ _ Hrun) by lia.
  reflexivity.
Qed.

Lemma apply_Clean (text : string) : Clean alts (apply rule text).
Proof.
  apply String_match_Clean.
  apply (apply_fuel_out rule (S (String.length text)) text).
  apply apply_fuel_apply. lia.
Qed.

(** The loop keeps a text clean for the words of another rule for
    which the replacement is inert. *)
Lemma apply_fuel_keeps (others : list string) (n : nat) (text out : string) :
  inert c0 others repl = true ->
  Clean others text -> apply_fuel n rule text = Some out -> Clean others out.
Proof.
  intros Hi. revert text; induction n as [|n IH]; intros text Hc;
    [discriminate|].
  rewrite apply_fuel_S.
  destruct (find_hit alts text) as [[[pre m] post]|] eqn:F.
  - destruct (find_hit_Some _ _ _ _ _ F) as [-> _].
    apply IH. now apply insert_clean with (c0 := c0) (m := m).
  - now intros [= <-].
Qed.

Lemma apply_keeps (others : list string) (text : string) :
  inert c0 others repl = true ->
  Clean others text -> Clean others (apply rule text).
Proof.
  intros Hi Hc.
  apply (apply_fuel_keeps others (S (String.length text)) text _ Hi Hc).
  apply apply_fuel_apply. lia.
Qed.

End Rule.

(** ** The rules of the program *)

Ltac eqb_const :=
  match goal with
  | |- context [Ascii.eqb (Ascii ?a0 ?a1 ?a2 ?a3 ?a4 ?a5 ?a6 ?a7)
                          (Ascii ?b0 ?b1 ?b2 ?b3 ?b4 ?b5 ?b6 ?b7)] =>
      let x := constr:(Ascii a0 a1 a2 a3 a4 a5 a6 a7) in
      let y := constr:(Ascii b0 b1 b2 b3 b4 b5 b6 b7) in
      let v := eval vm_compute in (Ascii.eqb x y) in
      change (Ascii.eqb x y) with v
  end.

(** Runs both sides on a text that is taken apart one character at a
    time, as far as either side looks at it. *)
Ltac by_characters :=
  repeat (cbn; repeat (eqb_const; cbn);
    match goal with
    | |- ?x = ?x => reflexivity
    | |- context [match ?s with EmptyString => _ | String _ _ => _ end] =>
        is_var s; destruct s
    | |- context [Ascii.eqb ?a ?c] =>
        is_var c; destruct (Ascii.eqb_spec a c); [subst c|]
    end).

Ltac each_replacer H :=
  destruct H as [<-|[<-|[<-|[]]]].

(** The lookbehinds of the three patterns stand right after [//], so they
    never reject: each pattern matches its literal expansions. *)
Lemma replacers_match_at (rule : UrlReplacer) (before after : string) :
  In rule replacers ->
  Regex.match_at (pattern rule) before after
  = option_map String.length (first_prefix (expansions (pattern rule)) after).
Proof.
  intros H; each_replacer H; unfold Regex.match_at;
    cbn [pattern twitter_pattern instagram_pattern tiktok_pattern];
    by_characters.
Qed.

Lemma replacers_inert (r1 r2 : UrlReplacer) :
  In r1 replacers -> In r2 replacers ->
  inert "h" (expansions (pattern r1)) (replacement r2) = true.
Proof.
  intros H1 H2; each_replacer H1; each_replacer H2; vm_compute; reflexivity.
Qed.

Lemma replacers_literal (rule : UrlReplacer) :
  In rule replacers -> literal_rule "h" rule.
Proof.
  intros H. split; [|split].
  - intros before after. now apply replacers_match_at.
  - now apply replacers_inert.
  - each_replacer H; vm_compute; reflexivity.
Qed.

Lemma apply_fixed (r : UrlReplacer) (text : string) :
  String_match text (pattern r) = None -> apply r text = text.
Proof. intros H. unfold apply. now rewrite apply_fuel_fixed. Qed.

Lemma apply_fuel_enough (rule : UrlReplacer) (fuel : nat) (text : string) :
  In rule replacers -> String.length text < fuel ->
  apply_fuel fuel rule text = Some (apply rule text).
Proof.
  intros H. apply apply_fuel_apply with (c0 := "h"%char).
  now apply replacers_literal.
Qed.

(** A rule of the program leaves no match of its own pattern. *)
Lemma apply_no_match (rule : UrlReplacer) (text : string) :
  In rule replacers -> String_match (apply rule text) (pattern rule) = None.
Proof.
  intros H. apply (apply_fuel_out rule (S (String.length text)) text).
  apply apply_fuel_enough; [exact H | lia].
Qed.

(** A rule of the program creates no match of another rule's pattern. *)
Lemma apply_no_new_match (rule other : UrlReplacer) (text : string) :
  In rule replacers -> In other replacers ->
  String_match text (pattern other) = None ->
  String_match (apply rule text) (pattern other) = None.
Proof.
  intros H Ho Hn.
  apply (String_match_Clean "h" other (replacers_literal _ Ho)).
  apply (apply_keeps "h" rule (replacers_literal _ H)).
  - now apply replacers_inert.
  - now apply (String_match_Clean "h" other (replacers_literal _ Ho)).
Qed.

(** The result of a rule is empty only for the empty text. *)
Lemma apply_empty (rule : UrlReplacer) (text : string) :
  In rule replacers -> apply rule text = "" -> text = "".
Proof.
  intros H. rewrite (apply_splice "h" rule (replacers_literal _ H)).
  pose proof (match_all_splice (S (String.length text)) (pattern rule) "" text)
    as Hs.
  destruct (match_all (S (String.length text)) (pattern rule) "" text)
    as [[|[g m] ps] last]; cbn [fst snd with_replacement map splice] in *.
  - congruence.
  - intros E. exfalso.
    destruct g; [|discriminate]. cbn in E.
    pose proof (inert_headed _ _ _ (replacers_inert _ _ H H)) as Hh.
    destruct (headed_inv _ _ Hh) as [t [Hr _]]. rewrite Hr in E. discriminate.
Qed.

(** With enough fuel for every rule the rewrite returns what
    [detectAndFixLinks] is defined to be. *)
Lemma detectAndFixLinks_fuel_enough (text : string) :
  exists fuel0, forall fuel, fuel0 <= fuel ->
    detectAndFixLinks_fuel fuel text = Some (detectAndFixLinks text).
Proof.
  unfold detectAndFixLinks_fuel, detectAndFixLinks.
  destruct (String.eqb text ""); [exists 0; reflexivity|].
  cbn [fold_left replacers].
  set (r1 := {| pattern := twitter_pattern |}).
  set (r2 := {| pattern := instagram_pattern |}).
  set (r3 := {| pattern := tiktok_pattern |}).
  assert (H1 : In r1 replacers) by (cbn; auto).
  assert (H2 : In r2 replacers) by (cbn; auto).
  assert (H3 : In r3 replacers) by (cbn; auto).
  exists (S (String.length text + String.length (apply r1 text)
             + String.length (apply r2 (apply r1 text)))).
  intros fuel Hf.
  rewrite (apply_fuel_enough r1 fuel text H1) by lia.
  rewrite (apply_fuel_enough r2 fuel _ H2) by lia.
  rewrite (apply_fuel_enough r3 fuel _ H3) by lia.
  reflexivity.
Qed.

Lemma detectAndFixLinks_no_match (text : string) (rule : UrlReplacer) :
  In rule replacers ->
  String_match (detectAndFixLinks text) (pattern rule) = None.
Proof.
  intros H. unfold detectAndFixLinks.
  destruct (String.eqb_spec text "") as [->|_].
  - each_replacer H; vm_compute; reflexivity.
  - cbn [fold_left replacers].
    set (r1 := {| pattern := twitter_pattern |}).
    set (r2 := {| pattern := instagram_pattern |}).
    set (r3 := {| pattern := tiktok_pattern |}).
    assert (H1 : In r1 replacers) by (cbn; auto).
    assert (H2 : In r2 replacers) by (cbn; auto).
    assert (H3 : In r3 replacers) by (cbn; auto).
    each_replacer H; fold r1 r2 r3.
    + do 2 (apply apply_no_new_match; [assumption..|]).
      now apply apply_no_match.
    + apply apply_no_new_match; [assumption..|]. now apply apply_no_match.
    + now apply apply_no_match.
Qed.

Lemma detectAndFixLinks_fixed (s : string) :
  (forall rule, In rule replacers -> String_match s (pattern rule) = None) ->
  detectAndFixLinks s = s.
Proof.
  intros H. unfold detectAndFixLinks.
  destruct (String.eqb s ""); [reflexivity|].
  cbn [fold_left replacers].
  do 3 (rewrite (apply_fixed _ s) by (apply H; cbn; auto)).
  reflexivity.
Qed.

Lemma detectAndFixLinks_empty (text : string) :
  detectAndFixLinks text = "" -> text = "".
Proof.
  unfold detectAndFixLinks.
  destruct (String.eqb_spec text "") as [->|_]; [reflexivity|].
  cbn [fold_left replacers]. intros H.
  do 3 (apply apply_empty in H; [|cbn; auto]). exact H.
Qed.

(** * The rewrite rules *)

Lemma stuck_rule_loops (fuel : nat) : apply_fuel fuel stuck_rule "a" = None.
Proof.
  induction fuel as [|fuel IH]; [reflexivity|].
  cbn [apply_fuel].
  assert (E : String_match "a" (pattern stuck_rule) = Some ["a"])
    by (vm_compute; reflexivity).
  rewrite E. cbn [nth].
  assert (R : String_replace "a" "a" (replacement stuck_rule) = "a")
    by (vm_compute; reflexivity).
  rewrite R. exact IH.
Qed.

(** C3, as stated, fails: [UrlReplacer.apply] has no no-progress guard, so
    for the rule that replaces [a] by [a] the loop on the text [a] never
    exits, whatever the number of turns allowed. *)
Lemma apply_can_run_forever :
  ~ (forall (rule : UrlReplacer) (text : string),
        exists fuel out, apply_fuel fuel rule text = Some out).
Proof.
  intros H. destruct (H stuck_rule "a") as [fuel [out E]].
  rewrite stuck_rule_loops in E. discriminate.
Qed.

(** C3, amended: for each of the three rules of the program and every
    input string, [UrlReplacer.apply] terminates; the loop exits within
    one turn more than the text has characters. *)
Theorem apply_terminates (rule : UrlReplacer) (text : string) :
  In rule replacers ->
  exists out, forall fuel,
    String.length text < fuel -> apply_fuel fuel rule text = Some out.
Proof.
  intros H. exists (apply rule text). intros fuel Hf.
  now apply apply_fuel_enough.
Qed.

Lemma apply_terminates_witness :
  In (nth 0 replacers stuck_rule) replacers
  /\ exists out, forall fuel,
       String.length "see http://x.com" < fuel ->
       apply_fuel fuel (nth 0 replacers stuck_rule) "see http://x.com"
       = Some out.
Proof.
  split; [cbn; auto|].
  apply (apply_terminates (nth 0 replacers stuck_rule) "see http://x.com").
  cbn; auto.
Defined.

(** C4: the full rewrite is idempotent: rewriting an already rewritten
    text changes nothing. *)
Theorem detectAndFixLinks_idempotent (s : string) :
  detectAndFixLinks (detectAndFixLinks s) = detectAndFixLinks s.
Proof.
  apply detectAndFixLinks_fixed. intros rule H.
  now apply detectAndFixLinks_no_match.
Qed.

(** C5: a text in which no rule's pattern has a match is returned
    unchanged; the empty text is one of them. *)
Theorem detectAndFixLinks_identity (s : string) :
  (forall rule, In rule replacers -> String_match s (pattern rule) = None) ->
  detectAndFixLinks s = s.
Proof. apply detectAndFixLinks_fixed. Qed.

Lemma detectAndFixLinks_identity_witness :
  (forall rule, In rule replacers ->
     String_match "see https://example.com/x and http://fixupx.com"
       (pattern rule) = None)
  /\ detectAndFixLinks "see https://example.com/x and http://fixupx.com"
     = "see https://example.com/x and http://fixupx.com".
Proof.
  assert (H : forall rule, In rule replacers ->
                String_match "see https://example.com/x and http://fixupx.com"
                  (pattern rule) = None).
  { intros rule Hr; each_replacer Hr; vm_compute; reflexivity. }
  split; [exact H|].
  apply (detectAndFixLinks_identity
           "see https://example.com/x and http://fixupx.com" H).
Defined.

(** C6: when a text is cut by the [N] non-overlapping matches of a rule's
    pattern into [pieces] (each match with the text before it) and the text
    [last] after them, [UrlReplacer.apply] for that rule returns, after [N]
    replacements, the same cutting with the replacement in the place of
    each of the [N] matches, and the pattern has no match left in it. *)
Theorem apply_replaces_every_match
  (rule : UrlReplacer) (text : string) (N : nat)
  (pieces : list (string * string)) (last : string) :
  In rule replacers ->
  match_all (S (String.length text)) (pattern rule) "" text = (pieces, last) ->
  List.length pieces = N ->
  text = splice pieces last
  /\ String_match text (pattern rule)
     = match pieces with [] => None | _ => Some (map snd pieces) end
  /\ (forall fuel, N < fuel ->
        apply_fuel fuel rule text
        = Some (splice (with_replacement (replacement rule) pieces) last))
  /\ List.length (with_replacement (replacement rule) pieces) = N
  /\ String_match (splice (with_replacement (replacement rule) pieces) last)
       (pattern rule) = None.
Proof.
  intros H Hall HN.
  pose proof (replacers_literal _ H) as Hl.
  pose proof (match_all_splice (S (String.length text)) (pattern rule) "" text)
    as Hs.
  destruct (apply_fuel_pieces "h" rule Hl (S (String.length text)) "" text ""
              (Quiet_nil _ _) (Nat.lt_succ_diag_r _)) as [Hrun _].
  pose proof (apply_no_match rule text H) as Hout.
  rewrite (apply_splice "h" rule Hl) in Hout.
  unfold String_match.
  rewrite Hall in *. cbn [fst snd append] in *. rewrite HN in Hrun.
  repeat split.
  - now symmetry.
  - now destruct pieces.
  - intros fuel Hf. apply (apply_fuel_mono _ _ _ _ _ Hrun). lia.
  - unfold with_replacement. now rewrite length_map.
  - exact Hout.
Qed.

Lemma apply_replaces_every_match_witness :
  let rule := nth 0 replacers stuck_rule in
  let text := "a http://x.com b https://twitter.com/c" in
  let pieces := [("a ", "http://x.com"); (" b ", "https://twitter.com")] in
  In rule replacers
  /\ match_all (S (String.length text)) (pattern rule) "" text = (pieces, "/c")
  /\ List.length pieces = 2
  /\ apply_fuel 3 rule text
     = Some "a https://fixupx.com b https://fixupx.com/c".
Proof.
  cbv zeta.
  assert (Hin : In (nth 0 replacers stuck_rule) replacers) by (cbn; auto).
  assert (Hall : match_all
                   (S (String.length "a http://x.com b https://twitter.com/c"))
                   (pattern (nth 0 replacers stuck_rule)) ""
                   "a http://x.com b https://twitter.com/c"
                 = ([("a ", "http://x.com"); (" b ", "https://twitter.com")],
                    "/c")) by (vm_compute; reflexivity).
  split; [exact Hin|]. split; [exact Hall|]. split; [reflexivity|].
  destruct (apply_replaces_every_match _ _ 2 _ _ Hin Hall eq_refl)
    as [_ [_ [Hrun _]]].
  apply (Hrun 3). lia.
Defined.

(** C8: an already fixed URL is left untouched. *)
Theorem fixed_url_untouched :
  detectAndFixLinks "https://fixupx.com/foo" = "https://fixupx.com/foo"
  /\ forall rule, In rule replacers ->
       String_match "https://fixupx.com/foo" (pattern rule) = None.
Proof.
  split; [vm_compute; reflexivity|].
  intros rule H; each_replacer H; vm_compute; reflexivity.
Qed.

(** C9: a twitter URL, with [http] or [https], is replaced by the fixupx
    mirror and the text around it is kept. *)
Theorem twitter_url_fixed :
  detectAndFixLinks "check this out http://twitter.com/foo"
  = "check this out https://fixupx.com/foo"
  /\ detectAndFixLinks "check this out https://twitter.com/foo"
     = "check this out https://fixupx.com/foo".
Proof. split; vm_compute; reflexivity. Qed.

(** * The polling tick *)

(** Takes a tick apart along the tests of [checkClipboard]. *)
Ltac tick_cases env st :=
  unfold checkClipboard;
  destruct (isMonitoringEnabled st) eqn:?Enabled; cbn [negb];
  [ destruct (Nat.eqb (String.length (readClipboard env)) 0) eqn:?Length;
    [ | destruct (String.eqb_spec (readClipboard env)
                    (lastClipboardContent st)); cbn [negb];
        [ | destruct (String.eqb_spec
                        (detectAndFixLinks (readClipboard env)) "");
            [ | destruct (String.eqb_spec
                            (detectAndFixLinks (readClipboard env))
                            (readClipboard env)); cbn [negb] ] ] ]
  | ];
  cbn [fst snd lastClipboardContent isMonitoringEnabled set_last].

Lemma checkClipboard_enabled (env : Env) (st : Monitor) :
  isMonitoringEnabled (fst (checkClipboard env st)) = isMonitoringEnabled st.
Proof. tick_cases env st; auto. Qed.

(** The state after a tick holds the last value assigned in it. *)
Lemma checkClipboard_last (env : Env) (st : Monitor) :
  lastClipboardContent (fst (checkClipboard env st))
  = final_last (snd (checkClipboard env st)) (lastClipboardContent st).
Proof. tick_cases env st; reflexivity. Qed.

(** A write-back is attempted only with the transformed text, and only
    when it differs from the content read. *)
Lemma checkClipboard_write (env : Env) (st : Monitor) (T : string) (ok : bool) :
  In (CallWrite T ok) (snd (checkClipboard env st)) ->
  T = detectAndFixLinks (readClipboard env)
  /\ ok = writeClipboard env T
  /\ T <> readClipboard env
  /\ lastClipboardContent (fst (checkClipboard env st)) = T.
Proof.
  tick_cases env st; cbn [In]; intros H;
    repeat (destruct H as [H|H]; try discriminate H); try contradiction.
  injection H as <- <-. auto.
Qed.

(** An enabled tick whose content read is new and is changed by the
    rewrite attempts the write-back. *)
Lemma checkClipboard_writes (env : Env) (st : Monitor) :
  isMonitoringEnabled st = true ->
  readClipboard env <> lastClipboardContent st ->
  detectAndFixLinks (readClipboard env) <> readClipboard env ->
  snd (checkClipboard env st)
  = [CallRead; SetLast (readClipboard env);
     CallWrite (detectAndFixLinks (readClipboard env))
       (writeClipboard env (detectAndFixLinks (readClipboard env)));
     SetLast (detectAndFixLinks (readClipboard env))].
Proof.
  intros He Hl Hd. tick_cases env st; try congruence.
  - exfalso. apply Hd. apply Nat.eqb_eq in Length.
    destruct (readClipboard env); [reflexivity | discriminate].
  - exfalso. apply Hd. rewrite (detectAndFixLinks_empty _ e) at 2. exact e.
Qed.

(** A tick that reads back the stored content does nothing. *)
Lemma checkClipboard_unchanged (env : Env) (st : Monitor) :
  readClipboard env = lastClipboardContent st ->
  checkClipboard env st
  = (st, if isMonitoringEnabled st then [CallRead] else []).
Proof.
  intros H. tick_cases env st; try reflexivity; contradiction.
Qed.

Lemma checkClipboard_disabled (env : Env) (st : Monitor) :
  isMonitoringEnabled st = false -> checkClipboard env st = (st, []).
Proof. intros H. unfold checkClipboard. now rewrite H. Qed.

Lemma checkClipboard_assigns (env : Env) (st : Monitor) (v : string) :
  In (SetLast v) (snd (checkClipboard env st)) -> v <> "".
Proof.
  tick_cases env st; cbn [In]; intros H;
    repeat (destruct H as [H|H]; try discriminate H); try contradiction;
    injection H as <-; try assumption;
    intros E; rewrite E in *; discriminate.
Qed.




(** C2: after a tick whose write-back of the transformed text [T]
    succeeded, [T] differs from the content read and is the stored
    content; a following tick that reads [T] back performs no write and
    leaves the state unchanged. *)
Theorem own_write_is_not_reprocessed
  (env : Env) (st : Monitor) (T : string) :
  In (CallWrite T true) (snd (checkClipboard env st)) ->
  let st1 := fst (checkClipboard env st) in
  T = detectAndFixLinks (readClipboard env)
  /\ T <> readClipboard env
  /\ lastClipboardContent st1 = T
  /\ forall next : Env,
       readClipboard next = T ->
       fst (checkClipboard next st1) = st1
       /\ forall text ok, ~ In (CallWrite text ok) (snd (checkClipboard next st1)).
Proof.
  intros H st1.
  destruct (checkClipboard_write _ _ _ _ H) as [H1 [_ [H3 H4]]].
  repeat split; try assumption.
  - rewrite checkClipboard_unchanged; [reflexivity|]. fold st1 in H4. congruence.
  - intros text ok. rewrite checkClipboard_unchanged.
    + cbn [snd]. destruct (isMonitoringEnabled st1); cbn [In];
        [intros [E|[]]; discriminate E | intros []].
    + fold st1 in H4. congruence.
Qed.

Lemma own_write_is_not_reprocessed_witness :
  let st1 := fst (checkClipboard working_env initial) in
  In (CallWrite "https://fixupx.com/foo" true)
     (snd (checkClipboard working_env initial))
  /\ lastClipboardContent st1 = "https://fixupx.com/foo"
  /\ checkClipboard reread_env st1 = (st1, [CallRead]).
Proof.
  cbv zeta.
  assert (H : In (CallWrite "https://fixupx.com/foo" true)
                (snd (checkClipboard working_env initial)))
    by (vm_compute; auto).
  destruct (own_write_is_not_reprocessed _ _ _ H) as [_ [_ [H3 _]]].
  split; [exact H|]. split; [exact H3|].
  vm_compute. reflexivity.
Defined.

(** C7: from the moment monitoring is toggled off, every run of ticks
    calls neither clipboard capability and assigns nothing: it leaves the
    state as the toggle left it, with the stored content untouched, until
    the next toggle switches monitoring back on. *)
Theorem disabled_ticks_do_nothing (envs : list Env) (st : Monitor) :
  isMonitoringEnabled st = true ->
  run_ticks envs (toggleMonitoring st) = (toggleMonitoring st, [])
  /\ lastClipboardContent (toggleMonitoring st) = lastClipboardContent st
  /\ toggleMonitoring (fst (run_ticks envs (toggleMonitoring st))) = st.
Proof.
  intros H.
  assert (Hoff : isMonitoringEnabled (toggleMonitoring st) = false)
    by (cbn; now rewrite H).
  assert (Hrun : run_ticks envs (toggleMonitoring st) = (toggleMonitoring st, [])).
  { induction envs as [|env envs IH]; cbn [run_ticks]; [reflexivity|].
    rewrite (checkClipboard_disabled _ _ Hoff), IH. reflexivity. }
  rewrite Hrun. repeat split.
  destruct st as [l e]. cbn in *. now subst e.
Qed.

Lemma disabled_ticks_do_nothing_witness :
  isMonitoringEnabled initial = true
  /\ run_ticks [working_env; failing_env; reread_env] (toggleMonitoring initial)
     = (toggleMonitoring initial, []).
Proof.
  split; [reflexivity|].
  exact (proj1 (disabled_ticks_do_nothing
                  [working_env; failing_env; reread_env] initial eq_refl)).
Defined.

Lemma run_ticks_assigns (envs : list Env) (st : Monitor) (v : string) :
  In (SetLast v) (snd (run_ticks envs st)) -> v <> "".
Proof.
  revert st; induction envs as [|env envs IH]; intros st; cbn [run_ticks].
  - intros [].
  - destruct (checkClipboard env st) as [st1 e1] eqn:E1.
    destruct (run_ticks envs st1) as [st2 e2] eqn:E2.
    cbn [snd]. intros H. apply in_app_or in H as [H|H].
    + apply (checkClipboard_assigns env st). now rewrite E1.
    + apply (IH st1). now rewrite E2.
Qed.

Lemma final_last_app (e1 e2 : list Effect) (v : string) :
  final_last (e1 ++ e2)%list v = final_last e2 (final_last e1 v).
Proof. unfold final_last. apply fold_left_app. Qed.

Lemma run_ticks_last (envs : list Env) (st : Monitor) :
  lastClipboardContent (fst (run_ticks envs st))
  = final_last (snd (run_ticks envs st)) (lastClipboardContent st).
Proof.
  revert st; induction envs as [|env envs IH]; intros st; cbn [run_ticks];
    [reflexivity|].
  pose proof (checkClipboard_last env st) as H1.
  destruct (checkClipboard env st) as [st1 e1].
  specialize (IH st1).
  destruct (run_ticks envs st1) as [st2 e2].
  cbn [fst snd] in *. now rewrite final_last_app, <- H1.
Qed.

(** C10: [lastClipboardContent] is never assigned the empty string.  In
    every run of ticks each value assigned to it is non-empty, and the
    stored content at the end is the last value assigned (the one the run
    started with when nothing was assigned); a read failure surfaces as
    the empty string, and a tick that reads the empty string assigns
    nothing and leaves the state unchanged. *)
Theorem last_is_never_set_empty (envs : list Env) (st : Monitor) (env : Env) :
  (forall v, In (SetLast v) (snd (run_ticks envs st)) -> v <> "")
  /\ lastClipboardContent (fst (run_ticks envs st))
     = final_last (snd (run_ticks envs st)) (lastClipboardContent st)
  /\ (paste_output env = None -> readClipboard env = "")
  /\ (readClipboard env = "" ->
      fst (checkClipboard env st) = st
      /\ forall v, ~ In (SetLast v) (snd (checkClipboard env st))).
Proof.
  split; [intros v; apply run_ticks_assigns|].
  split; [apply run_ticks_last|].
  split.
  - intros H. unfold readClipboard. rewrite H. now destruct (platform env).
  - intros H. unfold checkClipboard. rewrite H. cbn [String.length Nat.eqb].
    destruct (isMonitoringEnabled st); cbn [negb fst snd In];
      (split; [reflexivity|]).
    + intros v [E|[]]; discriminate E.
    + intros v [].
Qed.

(** * Further properties *)

(** ** Trimming *)

Lemma last_char_app (x y : string) :
  last_char (x ++ y)
  = match last_char y with Some d => Some d | None => last_char x end.
Proof.
  induction x as [|c x IH]; cbn.
  - now destruct (last_char y).
  - rewrite IH. destruct (last_char y); [reflexivity|].
    now destruct (last_char x).
Qed.

Lemma last_char_None (s : string) : last_char s = None -> s = "".
Proof.
  destruct s as [|c s]; [reflexivity|]. cbn.
  destruct (last_char s); discriminate.
Qed.

Lemma trim_start_head (s : string) (c : ascii) (r : string) :
  trim_start s = String c r -> is_space c = false.
Proof.
  induction s as [|d s IH]; cbn; [discriminate|].
  destruct (is_space d) eqn:E; [exact IH|].
  intros [= <- _]. exact E.
Qed.

Lemma trim_start_id (s : string) :
  (forall c r, s = String c r -> is_space c = false) -> trim_start s = s.
Proof.
  destruct s as [|d s]; [reflexivity|]. intros H. cbn.
  now rewrite (H d s eq_refl).
Qed.

Lemma trim_end_head (s : string) (c : ascii) (r : string) :
  trim_end s = String c r -> exists r', s = String c r'.
Proof.
  destruct s as [|d s]; cbn; [discriminate|].
  destruct (trim_end s); [destruct (is_space d); [discriminate|]|];
    intros [= <- _]; eauto.
Qed.

Lemma trim_end_last (s : string) (c : ascii) :
  last_char (trim_end s) = Some c -> is_space c = false.
Proof.
  induction s as [|d s IH]; cbn; [discriminate|].
  destruct (trim_end s) as [|e t] eqn:E.
  - destruct (is_space d) eqn:Ed; cbn; [discriminate|].
    intros [= <-]. exact Ed.
  - cbn [last_char] in *. destruct (last_char t) as [x|].
    + intros [= <-]. now apply IH.
    + intros [= <-]. now apply IH.
Qed.

Lemma trim_end_id (s : string) :
  (forall c, last_char s = Some c -> is_space c = false) -> trim_end s = s.
Proof.
  induction s as [|d s IH]; [reflexivity|]. intros H. cbn in *.
  destruct (last_char s) as [x|] eqn:E.
  - rewrite (IH H). destruct s; [discriminate|reflexivity].
  - apply last_char_None in E. subst s. cbn. now rewrite (H d eq_refl).
Qed.

(** A text is left as it is by [trim] when neither its first nor its
    last character is white space. *)
Lemma trim_id (s : string) :
  (forall c r, s = String c r -> is_space c = false) ->
  (forall c, last_char s = Some c -> is_space c = false) ->
  trim s = s.
Proof.
  intros Hh Hl. unfold trim. rewrite (trim_start_id _ Hh). now apply trim_end_id.
Qed.

Lemma trim_head (s : string) (c : ascii) (r : string) :
  trim s = String c r -> is_space c = false.
Proof.
  unfold trim. intros H. apply trim_end_head in H as [r' H].
  now apply trim_start_head in H.
Qed.

Lemma trim_last (s : string) (c : ascii) :
  last_char (trim s) = Some c -> is_space c = false.
Proof. apply trim_end_last. Qed.

Lemma trim_trim (s : string) : trim (trim s) = trim s.
Proof.
  apply trim_id.
  - intros c r. apply trim_head.
  - intros c. apply trim_last.
Qed.

Lemma trim_blank (s : string) :
  (forall c, mem c s = true -> is_space c = true) -> trim s = "".
Proof.
  intros H. unfold trim.
  assert (E : trim_start s = "").
  { induction s as [|d s IH]; [reflexivity|]. cbn.
    rewrite (H d) by (cbn; now rewrite Ascii.eqb_refl).
    apply IH. intros c Hc. apply H. cbn. rewrite Hc. apply orb_true_r. }
  now rewrite E.
Qed.

Lemma blank_cons (c : ascii) (s : string) :
  (forall x, mem x (String c s) = true -> is_space x = true) ->
  is_space c = true /\ (forall x, mem x s = true -> is_space x = true).
Proof.
  intros H. split.
  - apply H. cbn. now rewrite Ascii.eqb_refl.
  - intros x Hx. apply H. cbn. rewrite Hx. apply orb_true_r.
Qed.

Lemma trim_start_lead (lead s : string) :
  (forall c, mem c lead = true -> is_space c = true) ->
  trim_start (lead ++ s) = trim_start s.
Proof.
  induction lead as [|d lead IH]; intros H; [reflexivity|].
  apply blank_cons in H as [Hd H]. cbn. rewrite Hd. auto.
Qed.

Lemma trim_end_blank (s : string) :
  (forall c, mem c s = true -> is_space c = true) -> trim_end s = "".
Proof.
  induction s as [|d s IH]; intros H; [reflexivity|].
  apply blank_cons in H as [Hd H]. cbn. now rewrite (IH H), Hd.
Qed.

Lemma trim_end_trail (s trail : string) :
  (forall c, mem c trail = true -> is_space c = true) ->
  trim_end (s ++ trail) = trim_end s.
Proof.
  intros H. induction s as [|d s IH]; cbn.
  - now apply trim_end_blank.
  - now rewrite IH.
Qed.

(** White space around a trimmed text is all that [trim] removes. *)
Lemma trim_padded (lead s trail : string) :
  (forall c, mem c lead = true -> is_space c = true) ->
  (forall c, mem c trail = true -> is_space c = true) ->
  trim s = s -> trim (lead ++ s ++ trail) = s.
Proof.
  intros Hl Ht Hs. unfold trim. rewrite (trim_start_lead _ _ Hl).
  destruct s as [|c r].
  - cbn [append]. exact (trim_blank trail Ht).
  - pose proof (trim_head _ _ _ Hs) as Hc.
    assert (E : trim_end (String c r) = String c r).
    { unfold trim in Hs. cbn [trim_start] in Hs. now rewrite Hc in Hs. }
    cbn [append trim_start]. rewrite Hc.
    change (String c (r ++ trail)) with (String c r ++ trail).
    now rewrite (trim_end_trail _ _ Ht).
Qed.

(** ** The result of a literal rule, hit by hit *)

Section Sweep.
Variable c0 : ascii.
Variable rule : UrlReplacer.
Hypothesis Hrule : literal_rule c0 rule.

Let alts := expansions (pattern rule).
Let repl := replacement rule.

Lemma apply_of_fuel (n : nat) (text out : string) :
  apply_fuel n rule text = Some out -> apply rule text = out.
Proof.
  intros H.
  pose proof (apply_fuel_apply c0 rule Hrule (S (n + String.length text)) text)
    as E.
  rewrite (apply_fuel_mono _ _ _ _ _ H) in E by lia.
  symmetry. injection E; [auto | lia].
Qed.

Lemma apply_Clean_id (text : string) : Clean alts text -> apply rule text = text.
Proof.
  intros H. apply apply_fixed. now apply (String_match_Clean c0 rule Hrule).
Qed.

(** A stretch with no hit in it is passed over. *)
Lemma apply_skip (d s : string) :
  Quiet alts d s -> apply rule (d ++ s) = d ++ apply rule s.
Proof.
  intros Hq.
  destruct (apply_fuel_pieces c0 rule Hrule (S (String.length s)) d s ""
              Hq (Nat.lt_succ_diag_r _)) as [Hrun _].
  rewrite (apply_of_fuel _ _ _ Hrun).
  now rewrite (apply_splice c0 rule Hrule s).
Qed.

(** The leftmost hit is replaced and the rule goes on after it. *)
Lemma apply_hit (s pre m post : string) :
  find_hit alts s = Some (pre, m, post) ->
  apply rule s = pre ++ repl ++ apply rule post.
Proof.
  intros F.
  destruct (find_hit_Some _ _ _ _ _ F) as [_ [Hq _]].
  assert (E : apply rule s = apply rule (pre ++ repl ++ post)).
  { apply (apply_of_fuel (S (S (String.length (pre ++ repl ++ post))))).
    rewrite (apply_fuel_S c0 rule Hrule). fold alts. rewrite F.
    apply (apply_fuel_apply c0 rule Hrule). lia. }
  rewrite E, <- !str_app_assoc. apply apply_skip.
  apply insert_quiet with (c0 := c0) (orig := m ++ post);
    [exact (rule_inert c0 rule Hrule) | exact Hq].
Qed.

(** The result starts as the text does, or with the replacement. *)
Lemma apply_head (s : string) (c : ascii) (r : string) :
  apply rule s = String c r -> (exists r', s = String c r') \/ c = c0.
Proof.
  destruct (find_hit alts s) as [[[pre m] post]|] eqn:F.
  - rewrite (apply_hit _ _ _ _ F).
    destruct (find_hit_Some _ _ _ _ _ F) as [Hs _].
    destruct pre as [|d pre]; cbn.
    + destruct (headed_inv _ _ (inert_headed _ _ _ (rule_inert c0 rule Hrule)))
        as [t [Hr _]].
      fold repl in Hr. rewrite Hr. cbn. intros [= <- _]. now right.
    + intros [= <- _]. left. rewrite Hs. cbn. eauto.
  - rewrite apply_Clean_id by now apply find_hit_Clean. eauto.
Qed.

(** The result ends as the text does, or as the replacement. *)
Lemma apply_last (s : string) (c : ascii) :
  last_char (apply rule s) = Some c ->
  last_char s = Some c \/ last_char repl = Some c.
Proof.
  remember (S (String.length s)) as n eqn:Hn.
  assert (Hlen : String.length s < n) by lia. clear Hn.
  revert s Hlen; induction n as [|n IH]; intros s Hlen; [lia|].
  destruct (find_hit alts s) as [[[pre m] post]|] eqn:F.
  - rewrite (apply_hit _ _ _ _ F).
    destruct (find_hit_Some _ _ _ _ _ F) as [Hs [_ Hin]].
    destruct (hit_nonempty c0 rule Hrule _ Hin) as [d [t Hm]].
    assert (Hpost : String.length post < n).
    { rewrite Hs, Hm, !str_length_app in Hlen. cbn in Hlen. lia. }
    rewrite !last_char_app.
    destruct (last_char (apply rule post)) as [x|] eqn:E.
    + intros [= <-]. destruct (IH post Hpost E) as [H|H]; [left|now right].
      rewrite Hs, !last_char_app, H. reflexivity.
    + destruct (last_char repl) as [x|] eqn:El; [intros [= <-]; now right|].
      apply last_char_None in El.
      destruct (headed_inv _ _
                  (inert_headed _ _ _ (rule_inert c0 rule Hrule)))
        as [t' [Hr _]].
      fold repl in Hr. congruence.
  - rewrite apply_Clean_id by now apply find_hit_Clean. auto.
Qed.

End Sweep.

(** ** What the rules of the program keep of a text *)

Lemma replacers_head (rule : UrlReplacer) (s : string) (c : ascii) (r : string) :
  In rule replacers ->
  apply rule s = String c r -> (exists r', s = String c r') \/ c = "h"%char.
Proof.
  intros H. apply (apply_head "h" rule (replacers_literal _ H)).
Qed.

Lemma replacers_last (rule : UrlReplacer) (s : string) (c : ascii) :
  In rule replacers ->
  last_char (apply rule s) = Some c -> last_char s = Some c \/ c = "m"%char.
Proof.
  intros H E.
  destruct (apply_last "h" rule (replacers_literal _ H) _ _ E) as [E'|E'];
    [now left | right].
  each_replacer H; vm_compute in E'; congruence.
Qed.

Lemma apply_trimmed (rule : UrlReplacer) (s : string) :
  In rule replacers -> trim s = s -> trim (apply rule s) = apply rule s.
Proof.
  intros H Hs. apply trim_id.
  - intros c r E. destruct (replacers_head _ _ _ _ H E) as [[r' E']| ->];
      [|reflexivity].
    apply (trim_head s c r'). congruence.
  - intros c E. destruct (replacers_last _ _ _ H E) as [E'| ->];
      [|reflexivity].
    apply (trim_last s). congruence.
Qed.

Lemma detectAndFixLinks_trimmed (s : string) :
  trim s = s -> trim (detectAndFixLinks s) = detectAndFixLinks s.
Proof.
  intros Hs. unfold detectAndFixLinks.
  destruct (String.eqb s ""); [exact Hs|].
  cbn [fold_left replacers].
  do 3 (apply apply_trimmed; [cbn; auto|]). exact Hs.
Qed.

Lemma readClipboard_trim (env : Env) :
  trim (readClipboard env) = readClipboard env.
Proof.
  unfold readClipboard.
  destruct (platform env); try reflexivity;
    (destruct (paste_output env); [apply trim_trim | reflexivity]).
Qed.

(** ** The polling tick, further *)

(** X1: a tick whose clipboard read fails, because the platform is not
    supported or because the paste utility cannot be run, completes
    without writing and without changing the state. *)
Theorem failed_read_tick_does_nothing (env : Env) (st : Monitor) :
  platform env = unsupported \/ paste_output env = None ->
  checkClipboard env st
  = (st, if isMonitoringEnabled st then [CallRead] else []).
Proof.
  intros H.
  assert (E : readClipboard env = "").
  { unfold readClipboard. destruct H as [-> | ->]; [reflexivity|].
    now destruct (platform env). }
  unfold checkClipboard. rewrite E. cbn.
  now destruct (isMonitoringEnabled st).
Qed.

Lemma failed_read_tick_does_nothing_witness :
  (platform {| platform := unsupported; paste_output := Some "https://x.com";
               copy_completes := fun _ => true |} = unsupported
   \/ paste_output {| platform := unsupported;
                      paste_output := Some "https://x.com";
                      copy_completes := fun _ => true |} = None)
  /\ checkClipboard {| platform := unsupported;
                       paste_output := Some "https://x.com";
                       copy_completes := fun _ => true |} initial
     = (initial, [CallRead]).
Proof.
  split; [now left|].
  apply (failed_read_tick_does_nothing
           {| platform := unsupported; paste_output := Some "https://x.com";
              copy_completes := fun _ => true |} initial).
  now left.
Defined.

(** X2: a clipboard that holds nothing but white space is read as empty:
    the tick does not adopt it as the stored content and writes nothing. *)
Theorem blank_clipboard_is_skipped (env : Env) (st : Monitor) (output : string) :
  paste_output env = Some output ->
  (forall c, mem c output = true -> is_space c = true) ->
  checkClipboard env st
  = (st, if isMonitoringEnabled st then [CallRead] else []).
Proof.
  intros Ho Hb.
  assert (E : readClipboard env = "").
  { unfold readClipboard. rewrite Ho, (trim_blank _ Hb).
    now destruct (platform env). }
  unfold checkClipboard. rewrite E. cbn.
  now destruct (isMonitoringEnabled st).
Qed.

Lemma blank_clipboard_is_skipped_witness :
  paste_output {| platform := darwin; paste_output := Some "   ";
                  copy_completes := fun _ => true |} = Some "   "
  /\ (forall c, mem c "   " = true -> is_space c = true)
  /\ checkClipboard {| platform := darwin; paste_output := Some "   ";
                       copy_completes := fun _ => true |} initial
     = (initial, [CallRead]).
Proof.
  assert (Hb : forall c, mem c "   " = true -> is_space c = true).
  { intros c H. cbn in H.
    repeat (apply orb_true_iff in H as [H|H];
            [apply Ascii.eqb_eq in H; subst c; reflexivity|]).
    discriminate. }
  split; [reflexivity|]. split; [exact Hb|].
  exact (blank_clipboard_is_skipped
           {| platform := darwin; paste_output := Some "   ";
              copy_completes := fun _ => true |} initial "   " eq_refl Hb).
Defined.

(** X3: what [readClipboard] returns is trimmed: it neither starts nor
    ends with white space, and trimming it again changes nothing. *)
Theorem readClipboard_is_trimmed (env : Env) :
  trim (readClipboard env) = readClipboard env
  /\ (forall c r, readClipboard env = String c r -> is_space c = false)
  /\ (forall a c, readClipboard env = a ++ String c "" -> is_space c = false).
Proof.
  pose proof (readClipboard_trim env) as H.
  split; [exact H|]. split.
  - intros c r E. apply (trim_head (readClipboard env) c r). congruence.
  - intros a c E. apply (trim_last (readClipboard env)).
    rewrite H, E, last_char_app. reflexivity.
Qed.

Lemma checkClipboard_write_fixed
  (env : Env) (st : Monitor) (text : string) (ok : bool) :
  In (CallWrite text ok) (snd (checkClipboard env st)) ->
  isMonitoringEnabled st = true
  /\ readClipboard env <> lastClipboardContent st
  /\ text = detectAndFixLinks (readClipboard env)
  /\ text <> ""
  /\ text <> readClipboard env
  /\ forall rule, In rule replacers -> String_match text (pattern rule) = None.
Proof.
  intros H.
  destruct (checkClipboard_write _ _ _ _ H) as [H1 [_ [H3 _]]].
  assert (H' := H). revert H'.
  tick_cases env st; cbn [In]; intros H';
    repeat (destruct H' as [H'|H']; try discriminate H'); try contradiction.
  injection H' as <- _.
  repeat split; try assumption; try reflexivity.
  intros rule Hr. now apply detectAndFixLinks_no_match.
Qed.

(** X4: whatever a tick writes to the clipboard is the rewrite of the
    content it read, is not empty, differs from that content and has no
    match of any rule left in it; and a tick writes only when monitoring is
    enabled and the content read differs from the stored one. *)
Theorem written_text_is_fixed
  (env : Env) (st : Monitor) (text : string) (ok : bool) :
  In (CallWrite text ok) (snd (checkClipboard env st)) ->
  isMonitoringEnabled st = true
  /\ readClipboard env <> lastClipboardContent st
  /\ text = detectAndFixLinks (readClipboard env)
  /\ text <> ""
  /\ text <> readClipboard env
  /\ forall rule, In rule replacers -> String_match text (pattern rule) = None.
Proof.
  intros H. destruct (checkClipboard_write_fixed _ _ _ _ H)
    as [H1 [H2 [H3 [H4 [H5 H6]]]]].
  repeat split; assumption.
Qed.

Lemma written_text_is_fixed_witness :
  In (CallWrite "https://fixupx.com/foo" true)
     (snd (checkClipboard working_env initial))
  /\ forall rule, In rule replacers ->
       String_match "https://fixupx.com/foo" (pattern rule) = None.
Proof.
  assert (H : In (CallWrite "https://fixupx.com/foo" true)
                (snd (checkClipboard working_env initial)))
    by (vm_compute; auto).
  split; [exact H|].
  exact (proj2 (proj2 (proj2 (proj2 (proj2
           (written_text_is_fixed _ _ _ _ H)))))).
Defined.

(** X5: a failed write-back is tried again: when the next tick reads the
    same content as the tick whose write failed, it attempts the same
    write once more. *)
Theorem failed_write_is_retried
  (env next : Env) (st : Monitor) (text : string) :
  In (CallWrite text false) (snd (checkClipboard env st)) ->
  readClipboard next = readClipboard env ->
  In (CallWrite text (writeClipboard next text))
     (snd (checkClipboard next (fst (checkClipboard env st)))).
Proof.
  intros H Hn.
  destruct (checkClipboard_write_fixed _ _ _ _ H) as [He [_ [Ht [_ [Hd _]]]]].
  destruct (checkClipboard_write _ _ _ _ H) as [_ [_ [_ Hl]]].
  rewrite checkClipboard_writes.
  - rewrite Hn, <- Ht. cbn. auto.
  - now rewrite checkClipboard_enabled.
  - rewrite Hn, Hl. congruence.
  - rewrite Hn, <- Ht. exact Hd.
Qed.

Lemma failed_write_is_retried_witness :
  In (CallWrite "https://fixupx.com/foo" false)
     (snd (checkClipboard failing_env initial))
  /\ readClipboard working_env = readClipboard failing_env
  /\ In (CallWrite "https://fixupx.com/foo" true)
        (snd (checkClipboard working_env
                (fst (checkClipboard failing_env initial)))).
Proof.
  assert (H : In (CallWrite "https://fixupx.com/foo" false)
                (snd (checkClipboard failing_env initial)))
    by (vm_compute; auto).
  split; [exact H|]. split; [reflexivity|].
  exact (failed_write_is_retried failing_env working_env initial _ H eq_refl).
Defined.

(** X6: the lookbehinds of the three patterns never reject: whether and
    how far a pattern matches at a position does not depend on the text
    before that position, nor does the first match found from there. *)
Theorem lookbehind_never_rejects
  (rule : UrlReplacer) (before before' after : string) :
  In rule replacers ->
  Regex.match_at (pattern rule) before after
  = Regex.match_at (pattern rule) before' after
  /\ Regex.search (pattern rule) before after
     = Regex.search (pattern rule) before' after.
Proof.
  intros H. split.
  - now rewrite !replacers_match_at.
  - now rewrite !(search_find_hit "h" rule (replacers_literal _ H)).
Qed.

Lemma lookbehind_never_rejects_witness :
  In (nth 0 replacers stuck_rule) replacers
  /\ Regex.match_at (pattern (nth 0 replacers stuck_rule))
       "" "https://x.com/a"
     = Regex.match_at (pattern (nth 0 replacers stuck_rule))
         "pu-xif" "https://x.com/a".
Proof.
  split; [cbn; auto|].
  apply (lookbehind_never_rejects (nth 0 replacers stuck_rule)
           "" "pu-xif" "https://x.com/a").
  cbn; auto.
Defined.

(** X7: the text a tick wrote is read back as it was written: when the
    paste utility prints the text of a successful write-back, with or
    without white space around it (a final line break), the next tick
    reads that text, finds it is the stored content and does nothing
    more. *)
Theorem written_text_reads_back
  (env next : Env) (st : Monitor) (text lead trail : string) :
  In (CallWrite text true) (snd (checkClipboard env st)) ->
  platform next <> unsupported ->
  paste_output next = Some (lead ++ text ++ trail) ->
  (forall c, mem c lead = true -> is_space c = true) ->
  (forall c, mem c trail = true -> is_space c = true) ->
  readClipboard next = text
  /\ checkClipboard next (fst (checkClipboard env st))
     = (fst (checkClipboard env st), [CallRead]).
Proof.
  intros H Hp Ho Hlead Htrail.
  destruct (checkClipboard_write_fixed _ _ _ _ H) as [He [_ [Ht _]]].
  destruct (checkClipboard_write _ _ _ _ H) as [_ [_ [_ Hl]]].
  assert (E : readClipboard next = text).
  { unfold readClipboard. rewrite Ho.
    assert (Hx : trim text = text).
    { rewrite Ht. apply detectAndFixLinks_trimmed. apply readClipboard_trim. }
    rewrite (trim_padded _ _ _ Hlead Htrail Hx). now destruct (platform next). }
  split; [exact E|].
  rewrite checkClipboard_unchanged by congruence.
  now rewrite checkClipboard_enabled, He.
Qed.

Lemma written_text_reads_back_witness :
  let next := {| platform := win32;
                 paste_output :=
                   Some ("" ++ "https://fixupx.com/foo"
                            ++ String (ascii_of_nat 13)
                                 (String (ascii_of_nat 10) ""));
                 copy_completes := fun _ => true |} in
  In (CallWrite "https://fixupx.com/foo" true)
     (snd (checkClipboard working_env initial))
  /\ platform next <> unsupported
  /\ (forall c, mem c "" = true -> is_space c = true)
  /\ (forall c,
        mem c (String (ascii_of_nat 13) (String (ascii_of_nat 10) "")) = true ->
        is_space c = true)
  /\ checkClipboard next (fst (checkClipboard working_env initial))
     = (fst (checkClipboard working_env initial), [CallRead]).
Proof.
  cbv zeta.
  assert (H : In (CallWrite "https://fixupx.com/foo" true)
                (snd (checkClipboard working_env initial)))
    by (vm_compute; auto).
  assert (Hl : forall c, mem c "" = true -> is_space c = true)
    by (intros c Hc; discriminate Hc).
  assert (Ht : forall c,
             mem c (String (ascii_of_nat 13) (String (ascii_of_nat 10) ""))
             = true -> is_space c = true).
  { intros c Hc. cbn [mem] in Hc.
    repeat (apply orb_true_iff in Hc as [Hc|Hc];
            [apply Ascii.eqb_eq in Hc; subst c; reflexivity|]).
    discriminate. }
  split; [exact H|]. split; [discriminate|]. split; [exact Hl|].
  split; [exact Ht|].
  assert (Hp : platform
                 {| platform := win32;
                    paste_output :=
                      Some ("" ++ "https://fixupx.com/foo"
                               ++ String (ascii_of_nat 13)
                                    (String (ascii_of_nat 10) ""));
                    copy_completes := fun _ => true |} <> unsupported)
    by discriminate.
  exact (proj2 (written_text_reads_back working_env
                  {| platform := win32;
                     paste_output :=
                       Some ("" ++ "https://fixupx.com/foo"
                                ++ String (ascii_of_nat 13)
                                     (String (ascii_of_nat 10) ""));
                     copy_completes := fun _ => true |}
                  initial "https://fixupx.com/foo" ""
                  (String (ascii_of_nat 13) (String (ascii_of_nat 10) ""))
                  H Hp eq_refl Hl Ht)).
Defined.

(** X8: ticks never switch monitoring on or off, and the stored content
    after a run of ticks is empty only if it was empty before it. *)
Theorem ticks_keep_the_switch (envs : list Env) (st : Monitor) :
  isMonitoringEnabled (fst (run_ticks envs st)) = isMonitoringEnabled st
  /\ (lastClipboardContent (fst (run_ticks envs st)) = "" ->
      lastClipboardContent st = "").
Proof.
  split.
  - revert st; induction envs as [|env envs IH]; intros st; cbn [run_ticks];
      [reflexivity|].
    pose proof (checkClipboard_enabled env st) as H1.
    destruct (checkClipboard env st) as [st1 e1].
    specialize (IH st1). destruct (run_ticks envs st1) as [st2 e2].
    cbn [fst] in *. congruence.
  - rewrite run_ticks_last.
    pose proof (run_ticks_assigns envs st) as Ha.
    revert Ha. generalize (snd (run_ticks envs st)) as effects.
    generalize (lastClipboardContent st) as v.
    intros v effects; revert v.
    induction effects as [|e effects IH]; intros v Ha; cbn; [auto|].
    unfold final_last in *. cbn. intros E.
    destruct e as [| |w].
    + apply (IH v); [|exact E]. intros x Hx. apply Ha. now right.
    + apply (IH v); [|exact E]. intros x Hx. apply Ha. now right.
    + exfalso. apply (Ha w); [now left|].
      apply (IH w); [|exact E]. intros x Hx. apply Ha. now right.
Qed.

(** ** Texts free of the first character of the words *)

Lemma headed_hit_head (c0 : ascii) (alts : list string)
  (c : ascii) (s m : string) :
  forallb (headed c0) alts = true ->
  first_prefix alts (String c s) = Some m -> c = c0.
Proof.
  intros Hh H. destruct (first_prefix_Some _ _ _ H) as [Hin [rest Hr]].
  rewrite forallb_forall in Hh.
  destruct (headed_inv _ _ (Hh _ Hin)) as [t [-> _]].
  cbn in Hr. congruence.
Qed.

Lemma Quiet_free (c0 : ascii) (alts : list string) (x y : string) :
  forallb (headed c0) alts = true -> mem c0 x = false -> Quiet alts x y.
Proof.
  intros Hh Hx a b -> Hb. destruct b as [|d b]; [congruence|].
  destruct (first_prefix alts (String d b ++ y)) as [m|] eqn:E; [|reflexivity].
  cbn in E. apply (headed_hit_head c0) in E; [|exact Hh]. subst d.
  rewrite mem_app in Hx. cbn in Hx.
  rewrite Ascii.eqb_refl, orb_true_r in Hx. discriminate.
Qed.

Lemma Clean_free (c0 : ascii) (alts : list string) (x : string) :
  forallb (headed c0) alts = true -> mem c0 x = false -> Clean alts x.
Proof.
  intros Hh Hx. rewrite <- (str_app_nil_r x). apply Clean_app.
  - now apply (Quiet_free c0).
  - intros a b E. destruct a; [|discriminate]. cbn in E. subst b.
    destruct (first_prefix alts "") as [m|] eqn:F; [|reflexivity].
    destruct (first_prefix_Some _ _ _ F) as [Hin [rest Hr]].
    rewrite forallb_forall in Hh.
    destruct (headed_inv _ _ (Hh _ Hin)) as [t [-> _]]. discriminate.
Qed.

Lemma Quiet_app_l (alts : list string) (x y z : string) :
  Quiet alts (x ++ y) z -> Quiet alts x (y ++ z).
Proof.
  intros H a b -> Hb. rewrite <- str_app_assoc. apply (H a).
  - now rewrite str_app_assoc.
  - destruct b; [congruence | discriminate].
Qed.

(** A word is quiet inside when no hit starts at its first character. *)
Lemma Quiet_word (c0 : ascii) (alts : list string) (w y : string) :
  forallb (headed c0) alts = true -> headed c0 w = true ->
  first_prefix alts (w ++ y) = None -> Quiet alts w y.
Proof.
  intros Hh Hw Hn. destruct (headed_inv _ _ Hw) as [t [-> Ht]].
  apply Quiet_cons. split; [exact Hn|]. now apply (Quiet_free c0).
Qed.

(** Whether a stretch is quiet does not depend on what follows the next
    first character of a word. *)
Lemma Quiet_upto (c0 : ascii) (alts : list string) (pre y y' : string) :
  forallb (headed c0) alts = true ->
  Quiet alts pre (String c0 y) -> Quiet alts pre (String c0 y').
Proof.
  intros Hh. induction pre as [|c pre IH]; intros Hq; [apply Quiet_nil|].
  apply Quiet_cons in Hq as [H1 H2]. apply Quiet_cons. split; [|auto].
  destruct (first_prefix alts (String c pre ++ String c0 y')) as [m|] eqn:E;
    [exfalso|reflexivity].
  destruct (first_prefix_Some _ _ _ E) as [Hin [rest Hm]].
  pose proof Hh as Hh'. rewrite forallb_forall in Hh'.
  destruct (headed_inv _ _ (Hh' _ Hin)) as [t [-> Ht]].
  cbn in Hm. injection Hm as -> Hm.
  destruct (str_app_split _ _ _ _ Hm) as [[e [Hp He]]|[e [Ht' He]]].
  - destruct e as [|d e].
    + rewrite str_app_nil_r in Hp. subst t.
      apply (first_prefix_In alts (String c0 pre) (String c0 y) Hin). exact H1.
    + cbn in He. injection He as <- _. rewrite Hp, mem_app in Ht. cbn in Ht.
      rewrite Ascii.eqb_refl, orb_true_r in Ht. discriminate.
  - apply (first_prefix_In alts (String c0 t) (e ++ String c0 y) Hin).
    rewrite <- H1, Ht'. cbn. now rewrite str_app_assoc.
Qed.

Lemma apart_sym (a b : string) : apart a b = apart b a.
Proof.
  unfold apart. destruct (strip_prefix a b), (strip_prefix b a); reflexivity.
Qed.

(** Two words that start the same text are not apart. *)
Lemma apart_common (a b s : string) (ra rb : string) :
  s = a ++ ra -> s = b ++ rb -> apart a b = false.
Proof.
  intros -> H. unfold apart.
  destruct (str_app_split _ _ _ _ H) as [[e [-> _]]|[e [-> _]]].
  - rewrite (strip_prefix_app a e). reflexivity.
  - rewrite (strip_prefix_app b e).
    now destruct (strip_prefix (b ++ e) b).
Qed.

Lemma first_prefix_self (alts : list string) (m y : string) :
  separate alts = true -> In m alts -> first_prefix alts (m ++ y) = Some m.
Proof.
  intros Hs Hin.
  destruct (first_prefix alts (m ++ y)) as [m'|] eqn:E.
  - destruct (first_prefix_Some _ _ _ E) as [Hin' [rest Hr]].
    unfold separate in Hs. rewrite forallb_forall in Hs.
    specialize (Hs _ Hin). rewrite forallb_forall in Hs. specialize (Hs _ Hin').
    rewrite (apart_common m m' (m ++ y) y rest eq_refl Hr), orb_false_r in Hs.
    apply String.eqb_eq in Hs. now subst.
  - now apply first_prefix_In with (x := y) in Hin.
Qed.

Lemma disjoint_hits (alts1 alts2 : list string) (s : string) :
  disjoint alts1 alts2 = true ->
  first_prefix alts1 s <> None -> first_prefix alts2 s = None.
Proof.
  intros Hd H1.
  destruct (first_prefix alts1 s) as [a|] eqn:E1; [|congruence].
  destruct (first_prefix alts2 s) as [b|] eqn:E2; [exfalso|reflexivity].
  destruct (first_prefix_Some _ _ _ E1) as [Ha [ra Hra]].
  destruct (first_prefix_Some _ _ _ E2) as [Hb [rb Hrb]].
  unfold disjoint in Hd. rewrite forallb_forall in Hd.
  specialize (Hd _ Ha). rewrite forallb_forall in Hd. specialize (Hd _ Hb).
  rewrite (apart_common a b s ra rb Hra Hrb) in Hd. discriminate.
Qed.

Lemma disjoint_sym (alts1 alts2 : list string) :
  disjoint alts1 alts2 = true -> disjoint alts2 alts1 = true.
Proof.
  unfold disjoint. rewrite !forallb_forall. intros H b Hb.
  rewrite forallb_forall. intros a Ha. rewrite apart_sym.
  specialize (H _ Ha). rewrite forallb_forall in H. auto.
Qed.

Lemma find_hit_here (alts : list string) (s m : string) :
  first_prefix alts s = Some m ->
  find_hit alts s = Some ("", m, drop (String.length m) s).
Proof. intros H. destruct s; cbn; now rewrite H. Qed.

Lemma find_hit_single (alts : list string) (pre m post : string) :
  Quiet alts pre (m ++ post) -> first_prefix alts (m ++ post) = Some m ->
  find_hit alts (pre ++ m ++ post) = Some (pre, m, post).
Proof.
  intros Hq Hm. rewrite (find_hit_skip _ _ _ Hq), (find_hit_here _ _ _ Hm).
  now rewrite drop_app, str_app_nil_r.
Qed.

(** ** One link in a text, and two rules one after the other *)

Section OneLink.
Variable c0 : ascii.
Variable rule : UrlReplacer.
Hypothesis Hrule : literal_rule c0 rule.

Let alts := expansions (pattern rule).
Let repl := replacement rule.

Lemma rule_headed : forallb (headed c0) alts = true.
Proof.
  apply forallb_forall. intros m Hin.
  exact (inert_alts _ _ _ (rule_inert c0 rule Hrule) _ Hin).
Qed.

Lemma apply_single (pre m post : string) :
  separate alts = true -> In m alts ->
  mem c0 pre = false -> mem c0 post = false ->
  apply rule (pre ++ m ++ post) = pre ++ repl ++ post.
Proof.
  intros Hs Hin Hpre Hpost.
  rewrite (apply_hit c0 rule Hrule _ pre m post).
  - fold repl. rewrite (apply_Clean_id c0 rule Hrule); [reflexivity|].
    apply (Clean_free c0); [exact rule_headed | exact Hpost].
  - apply find_hit_single.
    + apply (Quiet_free c0); [exact rule_headed | exact Hpre].
    + now apply first_prefix_self.
Qed.

Lemma apply_other (pre w post : string) :
  inert c0 alts w = true ->
  mem c0 pre = false -> mem c0 post = false ->
  apply rule (pre ++ w ++ post) = pre ++ w ++ post.
Proof.
  intros Hw Hpre Hpost. apply (apply_Clean_id c0 rule Hrule).
  apply Clean_app; [apply (Quiet_free c0); [exact rule_headed | exact Hpre]|].
  apply Clean_app; [now apply (inert_inside c0)|].
  apply (Clean_free c0); [exact rule_headed | exact Hpost].
Qed.

End OneLink.

Section TwoRules.
Variable c0 : ascii.
Variables ruleA ruleB : UrlReplacer.
Hypothesis HA : literal_rule c0 ruleA.
Hypothesis HB : literal_rule c0 ruleB.

Let altsA := expansions (pattern ruleA).
Let altsB := expansions (pattern ruleB).

Hypothesis HAB : inert c0 altsA (replacement ruleB) = true.
Hypothesis HsepB : separate altsB = true.

(** The leftmost hit of the two rules is a hit of [ruleB]: both orders
    of the rules replace it and go on with the text after it. *)
Lemma commute_step (pre m post : string) :
  In m altsB ->
  Quiet altsB pre (m ++ post) ->
  Quiet altsA pre (m ++ post) ->
  first_prefix altsA (m ++ post) = None ->
  apply ruleA (apply ruleB post) = apply ruleB (apply ruleA post) ->
  apply ruleA (apply ruleB (pre ++ m ++ post))
  = apply ruleB (apply ruleA (pre ++ m ++ post)).
Proof.
  intros Hin HqB HqA HnA IH.
  pose proof (rule_headed c0 ruleA HA) as HhA.
  pose proof (rule_headed c0 ruleB HB) as HhB.
  pose proof (inert_alts _ _ _ (rule_inert c0 ruleB HB) _ Hin) as Hm.
  destruct (headed_inv _ _ Hm) as [t [Em Ht]].
  assert (E1 : apply ruleB (pre ++ m ++ post)
               = pre ++ replacement ruleB ++ apply ruleB post).
  { apply (apply_hit c0 ruleB HB _ pre m post).
    apply find_hit_single; [exact HqB | now apply first_prefix_self]. }
  assert (E2 : apply ruleA (pre ++ replacement ruleB ++ apply ruleB post)
               = pre ++ replacement ruleB ++ apply ruleA (apply ruleB post)).
  { rewrite <- !str_app_assoc. apply (apply_skip c0 ruleA HA).
    apply insert_quiet with (c0 := c0) (orig := m ++ post); assumption. }
  assert (E3 : apply ruleA (pre ++ m ++ post) = pre ++ m ++ apply ruleA post).
  { rewrite <- !str_app_assoc. apply (apply_skip c0 ruleA HA).
    apply Quiet_app; [exact HqA|]. now apply (Quiet_word c0). }
  assert (E4 : apply ruleB (pre ++ m ++ apply ruleA post)
               = pre ++ replacement ruleB ++ apply ruleB (apply ruleA post)).
  { apply (apply_hit c0 ruleB HB _ pre m (apply ruleA post)).
    apply find_hit_single; [|now apply first_prefix_self].
    rewrite Em in *. cbn [append] in *.
    now apply (Quiet_upto c0 altsB pre (t ++ post)). }
  rewrite E1, E2, E3, E4, IH. reflexivity.
Qed.

End TwoRules.

(** Two literal rules with separate words, none of which starts where a
    word of the other rule starts, and replacements inert for each other,
    give the same result in either order. *)
Lemma apply_commute (c0 : ascii) (r1 r2 : UrlReplacer) (s : string) :
  literal_rule c0 r1 -> literal_rule c0 r2 ->
  inert c0 (expansions (pattern r1)) (replacement r2) = true ->
  inert c0 (expansions (pattern r2)) (replacement r1) = true ->
  separate (expansions (pattern r1)) = true ->
  separate (expansions (pattern r2)) = true ->
  disjoint (expansions (pattern r1)) (expansions (pattern r2)) = true ->
  apply r1 (apply r2 s) = apply r2 (apply r1 s).
Proof.
  intros H1 H2 I12 I21 S1 S2 D12.
  pose proof (disjoint_sym _ _ D12) as D21.
  set (alts1 := expansions (pattern r1)) in *.
  set (alts2 := expansions (pattern r2)) in *.
  remember (S (String.length s)) as n eqn:Hn.
  assert (Hlen : String.length s < n) by lia. clear Hn.
  revert s Hlen; induction n as [|n IH]; intros s Hlen; [lia|].
  assert (Hshort : forall pre m post alts,
             s = pre ++ m ++ post -> In m alts ->
             forallb (headed c0) alts = true -> String.length post < n).
  { intros pre m post alts Hs Hin Hh. rewrite forallb_forall in Hh.
    destruct (headed_inv _ _ (Hh _ Hin)) as [t [Hm _]].
    rewrite Hs, Hm, !str_length_app in Hlen. cbn in Hlen. lia. }
  pose proof (rule_headed c0 r1 H1) as Hh1.
  pose proof (rule_headed c0 r2 H2) as Hh2.
  destruct (find_hit alts1 s) as [[[p1 m1] q1]|] eqn:F1;
    destruct (find_hit alts2 s) as [[[p2 m2] q2]|] eqn:F2.
  - destruct (find_hit_Some _ _ _ _ _ F1) as [Hs1 [Hq1 Hin1]].
    destruct (find_hit_Some _ _ _ _ _ F2) as [Hs2 [Hq2 Hin2]].
    assert (E : p1 ++ m1 ++ q1 = p2 ++ m2 ++ q2) by congruence.
    destruct (str_app_split _ _ _ _ E) as [[e [Hp He]]|[e [Hp He]]].
    + (* the hit of r1 comes first *)
      destruct e as [|d e].
      * exfalso. cbn in He.
        pose proof (first_prefix_In alts1 m1 q1 Hin1) as N1.
        pose proof (first_prefix_In alts2 m2 q2 Hin2) as N2.
        rewrite He in N1. apply N2. now apply (disjoint_hits alts1 alts2).
      * rewrite Hs1. symmetry.
        apply (commute_step c0 r2 r1 H2 H1 I21 S1); try assumption.
        -- rewrite He. apply Quiet_app_l. now rewrite <- Hp.
        -- rewrite He. apply (Hq2 p1 (String d e)); [exact Hp | discriminate].
        -- symmetry. apply IH. now apply (Hshort p1 m1 q1 alts1).
    + (* the hit of r2 comes first *)
      destruct e as [|d e].
      * exfalso. cbn in He.
        pose proof (first_prefix_In alts1 m1 q1 Hin1) as N1.
        pose proof (first_prefix_In alts2 m2 q2 Hin2) as N2.
        rewrite He in N2. apply N1. now apply (disjoint_hits alts2 alts1).
      * rewrite Hs2.
        apply (commute_step c0 r1 r2 H1 H2 I12 S2); try assumption.
        -- rewrite He. apply Quiet_app_l. now rewrite <- Hp.
        -- rewrite He. apply (Hq1 p2 (String d e)); [exact Hp | discriminate].
        -- apply IH. now apply (Hshort p2 m2 q2 alts2).
  - destruct (find_hit_Some _ _ _ _ _ F1) as [Hs1 [Hq1 Hin1]].
    apply find_hit_Clean in F2. rewrite Hs1 in F2.
    destruct (Clean_split _ _ _ F2) as [Hq2 Hc2].
    rewrite Hs1. symmetry.
    apply (commute_step c0 r2 r1 H2 H1 I21 S1); try assumption.
    + apply (Hc2 "" _ eq_refl).
    + symmetry. apply IH. now apply (Hshort p1 m1 q1 alts1).
  - destruct (find_hit_Some _ _ _ _ _ F2) as [Hs2 [Hq2 Hin2]].
    apply find_hit_Clean in F1. rewrite Hs2 in F1.
    destruct (Clean_split _ _ _ F1) as [Hq1 Hc1].
    rewrite Hs2.
    apply (commute_step c0 r1 r2 H1 H2 I12 S2); try assumption.
    + apply (Hc1 "" _ eq_refl).
    + apply IH. now apply (Hshort p2 m2 q2 alts2).
  - apply find_hit_Clean in F1, F2.
    rewrite (apply_Clean_id c0 r1 H1 s F1), (apply_Clean_id c0 r2 H2 s F2).
    now rewrite (apply_Clean_id c0 r1 H1 s F1).
Qed.

(** ** The rules of the program, composed *)

Lemma replacers_separate (rule : UrlReplacer) :
  In rule replacers -> separate (expansions (pattern rule)) = true.
Proof. intros H; each_replacer H; vm_compute; reflexivity. Qed.

(** X9: a text with one link, which has no [h] before or after the link,
    is rewritten to the same text with the rule's replacement in the place
    of the link, for every form of link that a rule's pattern matches. *)
Theorem single_link_is_replaced
  (rule : UrlReplacer) (link pre post : string) :
  In rule replacers ->
  In link (expansions (pattern rule)) ->
  mem "h" pre = false -> mem "h" post = false ->
  detectAndFixLinks (pre ++ link ++ post) = pre ++ replacement rule ++ post.
Proof.
  intros H Hl Hpre Hpost. unfold detectAndFixLinks.
  assert (Hne : String.eqb (pre ++ link ++ post) "" = false).
  { apply String.eqb_neq. intros E.
    destruct (hit_nonempty "h" rule (replacers_literal _ H) _ Hl)
      as [c [t ->]].
    destruct pre; discriminate. }
  rewrite Hne. cbn [fold_left replacers].
  set (r1 := {| pattern := twitter_pattern |}).
  set (r2 := {| pattern := instagram_pattern |}).
  set (r3 := {| pattern := tiktok_pattern |}).
  assert (H1 : In r1 replacers) by (cbn; auto).
  assert (H2 : In r2 replacers) by (cbn; auto).
  assert (H3 : In r3 replacers) by (cbn; auto).
  pose proof (replacers_literal _ H1) as L1.
  pose proof (replacers_literal _ H2) as L2.
  pose proof (replacers_literal _ H3) as L3.
  each_replacer H; fold r1 r2 r3 in Hl |- *.
  - rewrite (apply_single "h" r1 L1) by
      (try assumption; now apply replacers_separate).
    rewrite (apply_other "h" r2 L2) by
      (try assumption; now apply replacers_inert).
    rewrite (apply_other "h" r3 L3) by
      (try assumption; now apply replacers_inert).
    reflexivity.
  - rewrite (apply_other "h" r1 L1) by
      (try assumption;
       cbn in Hl; repeat (destruct Hl as [<-|Hl]; [vm_compute; reflexivity|]);
       contradiction).
    rewrite (apply_single "h" r2 L2) by
      (try assumption; now apply replacers_separate).
    rewrite (apply_other "h" r3 L3) by
      (try assumption; now apply replacers_inert).
    reflexivity.
  - rewrite (apply_other "h" r1 L1) by
      (try assumption;
       cbn in Hl; repeat (destruct Hl as [<-|Hl]; [vm_compute; reflexivity|]);
       contradiction).
    rewrite (apply_other "h" r2 L2) by
      (try assumption;
       cbn in Hl; repeat (destruct Hl as [<-|Hl]; [vm_compute; reflexivity|]);
       contradiction).
    rewrite (apply_single "h" r3 L3) by
      (try assumption; now apply replacers_separate).
    reflexivity.
Qed.

Lemma single_link_is_replaced_witness :
  In (nth 1 replacers stuck_rule) replacers
  /\ In "http://instagram.com" (expansions (pattern (nth 1 replacers stuck_rule)))
  /\ mem "h" "look: " = false
  /\ mem "h" "/p/1 !" = false
  /\ detectAndFixLinks "look: http://instagram.com/p/1 !"
     = "look: https://ddinstagram.com/p/1 !".
Proof.
  assert (H : In (nth 1 replacers stuck_rule) replacers) by (cbn; auto).
  assert (Hl : In "http://instagram.com"
                 (expansions (pattern (nth 1 replacers stuck_rule))))
    by (cbn; auto).
  split; [exact H|]. split; [exact Hl|]. split; [reflexivity|].
  split; [reflexivity|].
  exact (single_link_is_replaced (nth 1 replacers stuck_rule)
           "http://instagram.com" "look: " "/p/1 !" H Hl eq_refl eq_refl).
Defined.

Lemma apply_commute_replacers (r1 r2 : UrlReplacer) (s : string) :
  In r1 replacers -> In r2 replacers ->
  apply r1 (apply r2 s) = apply r2 (apply r1 s).
Proof.
  intros H1 H2.
  pose proof (replacers_literal _ H1) as L1.
  pose proof (replacers_literal _ H2) as L2.
  pose proof (replacers_inert _ _ H1 H2) as I12.
  pose proof (replacers_inert _ _ H2 H1) as I21.
  pose proof (replacers_separate _ H1) as S1.
  pose proof (replacers_separate _ H2) as S2.
  each_replacer H1; each_replacer H2;
    lazymatch goal with
    | |- apply ?a (apply ?a _) = _ => reflexivity
    | |- _ => apply (apply_commute "h"); try assumption; vm_compute; reflexivity
    end.
Qed.

(** X10: the rules of the program commute: applying two of them in
    either order gives the same text. *)
Theorem replacers_commute (r1 r2 : UrlReplacer) (s : string) :
  In r1 replacers -> In r2 replacers ->
  apply r1 (apply r2 s) = apply r2 (apply r1 s).
Proof. intros H1 H2. now apply apply_commute_replacers. Qed.

Lemma replacers_commute_witness :
  In (nth 2 replacers stuck_rule) replacers
  /\ In (nth 0 replacers stuck_rule) replacers
  /\ apply (nth 2 replacers stuck_rule)
       (apply (nth 0 replacers stuck_rule)
          "http://x.com https://tiktok.com")
     = apply (nth 0 replacers stuck_rule)
         (apply (nth 2 replacers stuck_rule)
            "http://x.com https://tiktok.com").
Proof.
  assert (H2 : In (nth 2 replacers stuck_rule) replacers) by (cbn; auto).
  assert (H0 : In (nth 0 replacers stuck_rule) replacers) by (cbn; auto).
  split; [exact H2|]. split; [exact H0|].
  exact (replacers_commute _ _ "http://x.com https://tiktok.com" H2 H0).
Defined.

Lemma fold_apply_permutation (rules rules' : list UrlReplacer) :
  Permutation rules rules' ->
  (forall r, In r rules -> In r replacers) ->
  forall text,
    fold_left (fun currentText replacer => apply replacer currentText)
      rules text
    = fold_left (fun currentText replacer => apply replacer currentText)
        rules' text.
Proof.
  induction 1 as [|x l l' Hp IH|x y l|l l' l'' Hp1 IH1 Hp2 IH2];
    intros Hin text; cbn [fold_left].
  - reflexivity.
  - apply IH. intros r Hr. apply Hin. now right.
  - rewrite (apply_commute_replacers x y text); [reflexivity| |];
      apply Hin; cbn; auto.
  - rewrite IH1 by assumption. apply IH2.
    intros r Hr. apply Hin. apply (Permutation_in r (Permutation_sym Hp1) Hr).
Qed.

(** X11: the order of the rules in the list does not matter: the rewrite
    with the three rules taken in any other order returns the same text as
    [detectAndFixLinks]. *)
Theorem rule_order_is_irrelevant (rules : list UrlReplacer) (text : string) :
  Permutation replacers rules ->
  (if String.eqb text "" then text
   else fold_left (fun currentText replacer => apply replacer currentText)
          rules text)
  = detectAndFixLinks text.
Proof.
  intros Hp. unfold detectAndFixLinks.
  destruct (String.eqb text ""); [reflexivity|].
  symmetry. apply fold_apply_permutation; auto.
Qed.

Lemma rule_order_is_irrelevant_witness :
  Permutation replacers (rev replacers)
  /\ fold_left (fun currentText replacer => apply replacer currentText)
       (rev replacers) "https://tiktok.com/@a http://twitter.com/b"
     = detectAndFixLinks "https://tiktok.com/@a http://twitter.com/b".
Proof.
  split; [apply Permutation_rev|].
  exact (rule_order_is_irrelevant (rev replacers)
           "https://tiktok.com/@a http://twitter.com/b"
           (Permutation_rev replacers)).
Defined.

(** * The application around the monitor *)

Lemma App_fresh_next (a : App.t) :
  App.fresh a -> ~ In (App.next_timer a) (App.timers a).
Proof.
  unfold App.fresh. rewrite Forall_forall. intros H Hin.
  specialize (H _ Hin). lia.
Qed.

(** X12: [stopMonitoring] cancels the timer that [startMonitoring]
    created and no other: after a start and a stop the active timers are
    those of before, and the monitor holds no timer handle. *)
Theorem stop_cancels_the_started_timer (a : App.t) :
  App.fresh a ->
  App.timers (App.stopMonitoring (App.startMonitoring a)) = App.timers a
  /\ App.intervalId (App.stopMonitoring (App.startMonitoring a)) = None
  /\ App.monitor (App.stopMonitoring (App.startMonitoring a)) = App.monitor a.
Proof.
  intros H. unfold App.stopMonitoring, App.startMonitoring.
  cbn -[Nat.eq_dec].
  destruct (Nat.eq_dec (App.next_timer a) (App.next_timer a)); [|congruence].
  repeat split. apply notin_remove. now apply App_fresh_next.
Qed.

Lemma stop_cancels_the_started_timer_witness :
  App.fresh App.start
  /\ App.timers (App.stopMonitoring (App.startMonitoring App.start)) = [].
Proof.
  assert (H : App.fresh App.start) by constructor.
  split; [exact H|].
  exact (proj1 (stop_cancels_the_started_timer App.start H)).
Defined.

(** [stopMonitoring] on a monitor that holds no timer handle changes
    nothing, so stopping twice is stopping once. *)
Theorem stop_is_idempotent (a : App.t) :
  (App.intervalId a = None -> App.stopMonitoring a = a)
  /\ App.stopMonitoring (App.stopMonitoring a) = App.stopMonitoring a.
Proof.
  split.
  - intros H. unfold App.stopMonitoring. now rewrite H.
  - unfold App.stopMonitoring.
    destruct (App.intervalId a) as [id|] eqn:E; cbn; [reflexivity|].
    now rewrite E.
Qed.

(** X13: [startMonitoring] does not cancel a timer it started before:
    after two starts, a stop cancels the second timer only; the first one
    stays active while the monitor holds no handle to cancel it. *)
Theorem second_start_leaks_the_first_timer (a : App.t) :
  App.fresh a ->
  let a' := App.stopMonitoring (App.startMonitoring (App.startMonitoring a)) in
  App.timers a' = App.next_timer a :: App.timers a
  /\ App.intervalId a' = None
  /\ App.stopMonitoring a' = a'.
Proof.
  intros H. cbv zeta. unfold App.stopMonitoring, App.startMonitoring.
  cbn -[Nat.eq_dec].
  destruct (Nat.eq_dec (S (App.next_timer a)) (S (App.next_timer a)));
    [|congruence].
  destruct (Nat.eq_dec (S (App.next_timer a)) (App.next_timer a)); [lia|].
  repeat split. f_equal. apply notin_remove.
  unfold App.fresh in H. rewrite Forall_forall in H.
  intros Hin. specialize (H _ Hin). lia.
Qed.

Lemma second_start_leaks_the_first_timer_witness :
  App.fresh App.start
  /\ App.timers
       (App.stopMonitoring
          (App.startMonitoring (App.startMonitoring App.start))) = [0].
Proof.
  assert (H : App.fresh App.start) by constructor.
  split; [exact H|].
  exact (proj1 (second_start_leaks_the_first_timer App.start H)).
Defined.

(** X14: toggling flips the monitoring flag and keeps the stored content,
    whether or not there is a tray and whether or not its icon file can be
    read; with a tray and a readable icon file the icon shown afterwards is
    the one of the new state, and in every other case the tray is left as
    it was. *)
Theorem toggle_updates_the_icon (host : App.Host) (a : App.t) :
  App.monitor (App.toggleMonitoring host a) = toggleMonitoring (App.monitor a)
  /\ match App.tray a with
     | Some tr =>
         let i := App.icon_of (negb (isMonitoringEnabled (App.monitor a))) in
         if App.icon_readable host i then
           App.tray (App.toggleMonitoring host a)
           = Some {| App.items := App.items tr; App.icon := Some i;
                     App.destroyed := App.destroyed tr |}
         else App.tray (App.toggleMonitoring host a) = Some tr
     | None => App.tray (App.toggleMonitoring host a) = None
     end
  /\ App.timers (App.toggleMonitoring host a) = App.timers a
  /\ App.intervalId (App.toggleMonitoring host a) = App.intervalId a.
Proof.
  unfold App.toggleMonitoring, App.updateTray. cbn.
  destruct (App.tray a) as [tr|] eqn:Et; cbn;
    [|rewrite ?Et; repeat split; reflexivity].
  destruct (App.icon_readable host
              (App.icon_of (negb (isMonitoringEnabled (App.monitor a)))));
    cbn; rewrite ?Et; repeat split; reflexivity.
Qed.

(** X15: [exit] always cancels the timer the monitor held and clears
    its handle, and does not touch the monitoring state.  Without a tray
    it ends the process with status 0.  With a tray it first calls
    [tray.destroy], unguarded: when the call returns the tray is destroyed
    and the process ends with status 0; when it throws, [exit] throws and
    [process.exit] is not reached, so no exit status is set. *)
Theorem exit_stops_polling_then_exits_or_throws
  (destroy_returns : bool) (a : App.t) :
  match App.exit destroy_returns a with
  | App.exited a' =>
      (App.tray a <> None -> destroy_returns = true)
      /\ App.exit_code a' = Some 0
      /\ App.intervalId a' = None
      /\ (forall id, App.intervalId a = Some id -> ~ In id (App.timers a'))
      /\ (forall tr, App.tray a' = Some tr -> App.destroyed tr = true)
      /\ (App.tray a' = None <-> App.tray a = None)
      /\ App.monitor a' = App.monitor a
  | App.threw a' =>
      App.tray a <> None
      /\ destroy_returns = false
      /\ a' = App.stopMonitoring a
      /\ App.exit_code a' = App.exit_code a
      /\ App.intervalId a' = None
      /\ (forall id, App.intervalId a = Some id -> ~ In id (App.timers a'))
      /\ App.monitor a' = App.monitor a
  end.
Proof.
  unfold App.exit, App.stopMonitoring.
  destruct (App.intervalId a) as [id|] eqn:Ei; cbn -[remove];
    destruct (App.tray a) as [tr|] eqn:Et; cbn -[remove];
    try destruct destroy_returns; cbn -[remove]; rewrite ?Ei, ?Et;
    repeat split; try discriminate; try congruence;
    try (intros id' [= <-]; apply remove_In);
    try (intros tr' [= <-]; reflexivity).
Qed.


(** * The command of the write-back *)

Lemma search_quote (before s : string) :
  Regex.search (Regex.Lit "'") before s = find_hit ["'"] s.
Proof.
  revert before; induction s as [|c s IH]; intros before;
    [reflexivity|].
  cbn [Regex.search find_hit]. unfold Regex.match_at.
  cbn [Regex.run first_prefix strip_prefix].
  destruct (Ascii.eqb_spec "'" c) as [<-|Hc]; cbn; [reflexivity|].
  now rewrite IH.
Qed.

Lemma find_quote (s : string) :
  match find_hit ["'"] s with
  | None => double_quotes s = s
  | Some (pre, m, post) =>
      m = "'" /\ s = pre ++ "'" ++ post
      /\ double_quotes s = pre ++ "''" ++ double_quotes post
  end.
Proof.
  induction s as [|c s IH]; [reflexivity|].
  cbn [find_hit first_prefix strip_prefix double_quotes].
  rewrite (Ascii.eqb_sym c "'").
  destruct (Ascii.eqb_spec "'" c) as [<-|Hc]; cbn; [auto|].
  destruct (find_hit ["'"] s) as [[[pre m] post]|].
  - destruct IH as [-> [-> ->]]. auto.
  - now rewrite IH.
Qed.

Lemma replace_quotes (fuel : nat) (before seen s : string) :
  String.length s < fuel ->
  replace_pieces "''" seen
    (fst (match_all fuel (Regex.Lit "'") before s))
    (snd (match_all fuel (Regex.Lit "'") before s))
  = double_quotes s.
Proof.
  revert before seen s; induction fuel as [|fuel IH];
    intros before seen s Hlen; [lia|].
  cbn [match_all]. rewrite search_quote.
  pose proof (find_quote s) as Hq.
  destruct (find_hit ["'"] s) as [[[pre m] post]|].
  - destruct Hq as [-> [Hs Hd]].
    cbn [cons_piece fst snd replace_pieces].
    rewrite GetSubstitution_plain by reflexivity.
    rewrite IH, Hd; [reflexivity|].
    rewrite Hs, !str_length_app in Hlen. cbn in Hlen. lia.
  - cbn. now rewrite Hq.
Qed.

Lemma double_quotes_inj (s t : string) :
  double_quotes s = double_quotes t -> s = t.
Proof.
  revert t; induction s as [|c s IH]; intros [|d t]; cbn; try reflexivity.
  - destruct (Ascii.eqb d "'"); discriminate.
  - destruct (Ascii.eqb c "'"); discriminate.
  - destruct (Ascii.eqb_spec c "'") as [->|Hc],
             (Ascii.eqb_spec d "'") as [->|Hd].
    + intros [= E]. f_equal. auto.
    + intros [= <- E]. destruct t as [|e t]; cbn in E; [discriminate|].
      congruence.
    + intros [= -> E]. congruence.
    + intros [= -> E]. f_equal. auto.
Qed.

Lemma str_app_inv_tail (a b c : string) : a ++ c = b ++ c -> a = b.
Proof.
  revert b; induction a as [|x a IH]; intros [|y b]; cbn; intros H;
    try reflexivity.
  - exfalso. apply (f_equal String.length) in H. cbn in H.
    rewrite str_length_app in H. lia.
  - exfalso. apply (f_equal String.length) in H. cbn in H.
    rewrite str_length_app in H. lia.
  - injection H as -> H. f_equal. auto.
Qed.

Lemma copy_command_win32 (text : string) :
  copy_command win32 text
  = Some (["powershell.exe"; "-command";
           "Set-Clipboard -Value '" ++ double_quotes text ++ "'"], None).
Proof.
  unfold copy_command, String_replace_all. now rewrite replace_quotes by lia.
Qed.

(** X17: on Windows the text is written into the PowerShell command
    between single quotes with every single quote of the text doubled and
    nothing else changed; a text without single quotes is passed as it
    is. *)
Theorem powershell_quotes_are_doubled (text : string) :
  copy_command win32 text
  = Some (["powershell.exe"; "-command";
           "Set-Clipboard -Value '" ++ double_quotes text ++ "'"], None)
  /\ (mem "'" text = false -> double_quotes text = text).
Proof.
  split.
  - apply copy_command_win32.
  - induction text as [|c t IH]; cbn; [reflexivity|].
    rewrite (Ascii.eqb_sym c "'").
    destruct (Ascii.eqb "'" c); cbn; [discriminate|].
    intros H. now rewrite IH.
Qed.

(** X18: on every supported platform the process that is spawned
    determines the text: two texts with the same command and standard
    input are the same text.  There is no command on other platforms,
    where [writeClipboard] reports a failure. *)
Theorem copy_command_determines_text (p : Platform) (text text' : string) :
  (p <> unsupported ->
   copy_command p text = copy_command p text' -> text = text')
  /\ (copy_command p text = None <-> p = unsupported)
  /\ (forall env, platform env = p -> writeClipboard env text = true ->
        copy_command p text <> None).
Proof.
  split; [|split].
  - intros Hp.
    destruct p; try congruence; try (cbn; congruence).
    rewrite (copy_command_win32 text), (copy_command_win32 text').
    intros [= E]. apply str_app_inv_tail in E. now apply double_quotes_inj.
  - destruct p; split; cbn; congruence.
  - intros env <- H. unfold writeClipboard in H.
    destruct (platform env); cbn; congruence.
Qed.

(** * The rewrite loop for rules outside the program *)

(** X19: for every rule, when the loop of [UrlReplacer.apply] exits it
    returns a text in which the pattern has no match, and the text
    returned does not depend on how many turns were allowed beyond those
    it took. *)
Theorem apply_exits_without_match
  (rule : UrlReplacer) (fuel fuel' : nat) (text out : string) :
  apply_fuel fuel rule text = Some out ->
  fuel <= fuel' ->
  String_match out (pattern rule) = None
  /\ apply_fuel fuel' rule text = Some out
  /\ apply_fuel fuel' rule out = Some out.
Proof.
  intros H Hle.
  pose proof (apply_fuel_out _ _ _ _ H) as Hn.
  split; [exact Hn|]. split; [now apply (apply_fuel_mono rule fuel)|].
  destruct fuel' as [|f]; [|now apply apply_fuel_fixed].
  destruct fuel; [discriminate | lia].
Qed.

Lemma apply_exits_without_match_witness :
  apply_fuel 2 {| pattern := Regex.Alt (Regex.Lit "ab") (Regex.Lit "a");
                  replacement := "b" |} "xaby" = Some "xby"
  /\ 2 <= 5
  /\ String_match "xby" (Regex.Alt (Regex.Lit "ab") (Regex.Lit "a")) = None.
Proof.
  assert (H : apply_fuel 2
                {| pattern := Regex.Alt (Regex.Lit "ab") (Regex.Lit "a");
                   replacement := "b" |} "xaby" = Some "xby")
    by (vm_compute; reflexivity).
  assert (Hle : 2 <= 5) by lia.
  split; [exact H|]. split; [exact Hle|].
  exact (proj1 (apply_exits_without_match _ 2 5 "xaby" "xby" H Hle)).
Defined.

Lemma strip_prefix_app_r (p s rest b : string) :
  strip_prefix p s = Some rest -> strip_prefix p (s ++ b) = Some (rest ++ b).
Proof.
  intros H. apply strip_prefix_Some in H. subst s.
  rewrite str_app_assoc. apply strip_prefix_app.
Qed.

Lemma index_of_app_l (w x y : string) :
  index_of w y <> None -> index_of w (x ++ y) <> None.
Proof.
  intros H. induction x as [|c x IH]; [exact H|]. cbn.
  destruct (strip_prefix w (String c (x ++ y))); [discriminate|].
  destruct (index_of w (x ++ y)) as [[a b]|]; [discriminate | exact IH].
Qed.

Lemma index_of_app_r (w r b : string) :
  index_of w r <> None -> index_of w (r ++ b) <> None.
Proof.
  induction r as [|c r IH]; cbn.
  - destruct (strip_prefix w "") as [rest|] eqn:E; [|congruence].
    intros _. destruct b as [|d b]; cbn.
    + now rewrite E.
    + change (String d b) with ("" ++ String d b).
      now rewrite (strip_prefix_app_r _ _ _ _ E).
  - destruct (strip_prefix w (String c r)) as [rest|] eqn:E.
    + intros _. change (String c (r ++ b)) with (String c r ++ b).
      now rewrite (strip_prefix_app_r _ _ _ _ E).
    + destruct (index_of w r) as [[a0 b0]|]; [|congruence].
      intros _.
      destruct (strip_prefix w (String c (r ++ b))); [discriminate|].
      destruct (index_of w (r ++ b)) as [[a1 b1]|]; [discriminate|].
      apply IH. discriminate.
Qed.

Lemma search_literal (w before s : string) :
  Regex.search (Regex.Lit w) before s
  = match index_of w s with
    | Some (a, b) => Some (a, w, b)
    | None => None
    end.
Proof.
  assert (Hm : forall bf af,
             Regex.match_at (Regex.Lit w) bf af
             = match strip_prefix w af with
               | Some _ => Some (String.length w + 0)
               | None => None
               end).
  { intros bf af. unfold Regex.match_at. cbn [Regex.run].
    now destruct (strip_prefix w af). }
  assert (Hhere : forall af rest, strip_prefix w af = Some rest ->
             take (String.length w + 0) af = w
             /\ drop (String.length w + 0) af = rest).
  { intros af rest E. apply strip_prefix_Some in E. subst af.
    rewrite Nat.add_0_r. split; [apply take_app | apply drop_app]. }
  revert before; induction s as [|c s IH]; intros before;
    cbn [Regex.search index_of]; rewrite Hm.
  - destruct (strip_prefix w "") as [rest|] eqn:E; [|reflexivity].
    destruct (Hhere _ _ E) as [-> ->]. reflexivity.
  - destruct (strip_prefix w (String c s)) as [rest|] eqn:E.
    + destruct (Hhere _ _ E) as [-> ->]. reflexivity.
    + rewrite IH. now destruct (index_of w s) as [[a b]|].
Qed.

(** X20: a rule whose pattern is a literal word and whose replacement
    contains that word never lets the loop of [UrlReplacer.apply] exit on
    a text that contains the word: every replacement brings the word
    back. *)
Theorem literal_rule_with_word_in_replacement_loops
  (w repl text : string) (fuel : nat) :
  w <> "" ->
  mem "$" repl = false ->
  index_of w repl <> None ->
  index_of w text <> None ->
  apply_fuel fuel {| pattern := Regex.Lit w; replacement := repl |} text = None.
Proof.
  intros Hw Hd Hr. revert text; induction fuel as [|fuel IH]; intros text Ht;
    [reflexivity|].
  cbn [apply_fuel pattern replacement].
  unfold String_match. cbn [match_all]. rewrite search_literal.
  destruct (index_of w text) as [[a b]|] eqn:E; [|congruence].
  destruct w as [|c w]; [congruence|].
  cbn [cons_piece fst snd map nth].
  unfold String_replace. rewrite E, GetSubstitution_plain by exact Hd.
  apply IH. apply index_of_app_l. now apply index_of_app_r.
Qed.

Lemma literal_rule_with_word_in_replacement_loops_witness :
  "x.com" <> ""
  /\ mem "$" "fixupx.com" = false
  /\ index_of "x.com" "fixupx.com" <> None
  /\ index_of "x.com" "see https://x.com/a" <> None
  /\ apply_fuel 50 {| pattern := Regex.Lit "x.com";
                        replacement := "fixupx.com" |} "see https://x.com/a"
     = None.
Proof.
  assert (H1 : "x.com" <> "") by discriminate.
  assert (H2 : mem "$" "fixupx.com" = false) by reflexivity.
  assert (H3 : index_of "x.com" "fixupx.com" <> None)
    by (vm_compute; discriminate).
  assert (H4 : index_of "x.com" "see https://x.com/a" <> None)
    by (vm_compute; discriminate).
  split; [exact H1|]. split; [exact H2|]. split; [exact H3|].
  split; [exact H4|].
  exact (literal_rule_with_word_in_replacement_loops
           "x.com" "fixupx.com" "see https://x.com/a" 50 H1 H2 H3 H4).
Defined.
